(** * Stock analyser: indicator and recommendation engine (app.py)

    A shallow embedding of the compute layer of [app.py]: [pe_rating],
    [buying_recommendation], [performance] and the momentum computation of
    the analysis handler, followed by the properties of the specification
    that concern them.

    Numbers.  The program computes on IEEE-754 doubles (numpy float64 inside
    pandas, Python floats outside).  A double is modelled by [fval]: an exact
    rational, or one of the special values NaN, +inf, -inf, with the IEEE
    rules for the special values.  Rounding error of finite arithmetic and
    the sign of zero are not modelled.

    pandas.  [rolling], [ewm], [diff], [mask] and [iloc] are library calls;
    they are modelled by their semantics on a one-column series, including
    the treatment of NaN and of [min_periods].

    The last two parts cover the code around the engine: the market-cap
    display, the symbol loader, the suggestions, the listing details and
    the file name and story of the report artifact. *)

From Stdlib Require Import ZArith QArith Qcanon Qround Lia Lqa.
From stdpp Require Import base numbers strings list gmap.
From Stdlib Require Import Ascii DecimalN.

Local Open Scope Z_scope.

(** ** Floating-point values *)

Module Float.

Inductive fval : Type :=
  | Num (q : Qc)
  | NaN
  | PInf
  | NInf.

#[global] Instance fval_eq_dec : EqDecision fval.
Proof. solve_decision. Defined.

Definition of_Z (z : Z) : fval := Num (Qc_of_Z z).
Definition of_nat (n : nat) : fval := of_Z (Z.of_nat n).

Definition is_nan (x : fval) : bool :=
  match x with NaN => true | _ => false end.

Definition fneg (x : fval) : fval :=
  match x with
  | Num q => Num (- q)%Qc
  | NaN => NaN
  | PInf => NInf
  | NInf => PInf
  end.

Definition fadd (x y : fval) : fval :=
  match x, y with
  | NaN, _ | _, NaN => NaN
  | Num a, Num b => Num (a + b)%Qc
  | PInf, NInf | NInf, PInf => NaN
  | PInf, _ | _, PInf => PInf
  | NInf, _ | _, NInf => NInf
  end.

Definition fsub (x y : fval) : fval := fadd x (fneg y).

(** Sign of a value that is not NaN; zero counts as positive zero. *)
Definition sign (x : fval) : comparison :=
  match x with
  | Num q => (q ?= 0)%Qc
  | PInf => Gt
  | _ => Lt
  end.

Definition inf_of (s : comparison) : fval :=
  match s with Gt => PInf | Lt => NInf | Eq => NaN end.

Definition sign_mul (s t : comparison) : comparison :=
  match s, t with
  | Eq, _ | _, Eq => Eq
  | Gt, Gt | Lt, Lt => Gt
  | _, _ => Lt
  end.

Definition fmul (x y : fval) : fval :=
  match x, y with
  | NaN, _ | _, NaN => NaN
  | Num a, Num b => Num (a * b)%Qc
  | _, _ => inf_of (sign_mul (sign x) (sign y))
  end.

(** Division never raises on float64: x/0 is an infinity of the sign of x,
    and 0/0 is NaN. *)
Definition fdiv (x y : fval) : fval :=
  match x, y with
  | NaN, _ | _, NaN => NaN
  | Num a, Num b =>
      if decide (b = 0%Qc) then inf_of (sign x) else Num (a / b)%Qc
  | Num _, _ => Num 0%Qc
  | _, Num b => inf_of (sign_mul (sign x) (if decide (b = 0%Qc) then Gt else sign y))
  | _, _ => NaN
  end.

(** Comparisons: any comparison with NaN is false. *)
Definition flt (x y : fval) : bool :=
  match x, y with
  | NaN, _ | _, NaN => false
  | Num a, Num b => bool_decide (a < b)%Qc
  | NInf, NInf | PInf, _ | _, NInf => false
  | _, _ => true
  end.

Definition fgt (x y : fval) : bool := flt y x.

Definition fle (x y : fval) : bool :=
  match x, y with
  | NaN, _ | _, NaN => false
  | Num a, Num b => bool_decide (a <= b)%Qc
  | NInf, _ | _, PInf => true
  | _, _ => false
  end.

(** Round half to even, to an integer. *)
Definition rint (q : Q) : Z :=
  let f := Qfloor q in
  match (q - inject_Z f ?= 1 # 2)%Q with
  | Lt => f
  | Gt => f + 1
  | Eq => if Z.even f then f else f + 1
  end.

(** [round(x, 2)] on a finite value. *)
Definition round2 (q : Qc) : Qc :=
  Q2Qc (inject_Z (rint (q * 100)%Q) / 100)%Q.

Definition fround2 (x : fval) : fval :=
  match x with Num q => Num (round2 q) | _ => x end.

Definition fsum (xs : list fval) : fval := foldr fadd (Num 0%Qc) xs.

End Float.
Export Float.

(** ** Python values, exceptions *)

Module Py.

Inductive exn : Type := KeyError | IndexError | ZeroDivisionError | TypeError.

Inductive result (A : Type) : Type :=
  | Ok (a : A)
  | Raise (e : exn).
Arguments Ok {A} a.
Arguments Raise {A} e.

Definition rbind {A B} (r : result A) (k : A -> result B) : result B :=
  match r with Ok a => k a | Raise e => Raise e end.

(** The values that occur in the [info] dictionary and in the output of
    [performance]: None, a number, a string. *)
Inductive pyval : Type :=
  | PyNone
  | PyNum (x : fval)
  | PyStr (s : string).

#[global] Instance pyval_eq_dec : EqDecision pyval.
Proof. solve_decision. Defined.

(** [d.get(k, default)] *)
Definition dict_get (d : gmap string pyval) (k : string) (dflt : pyval) : pyval :=
  default dflt (d !! k).

(** Operand of an arithmetic operator or of an ordering against a number:
    TypeError for None and for strings. *)
Definition as_num (v : pyval) : result fval :=
  match v with PyNum x => Ok x | _ => Raise TypeError end.

(** [a / b] on Python numbers: a zero divisor raises. *)
Definition py_truediv (a b : fval) : result fval :=
  if decide (b = Num 0%Qc) then Raise ZeroDivisionError else Ok (fdiv a b).

End Py.
Export Py.

Notation "'do' x <- m ; k" := (rbind m (fun x => k))
  (at level 10, x name, m at level 100, k at level 200, only parsing).

(** ** pandas: series and data frames *)

Module Pandas.

(** A data frame: the index (one date per row, as a day number) and the
    columns by name.  Every column of a frame built by the provider has one
    value per row. *)
Record DataFrame : Type := mkDataFrame {
  index : list Z;
  columns : gmap string (list fval)
}.

(** [len(df)] *)
Definition len (df : DataFrame) : nat := length (index df).

(** [df[c]]: KeyError when there is no such column. *)
Definition df_getitem (df : DataFrame) (c : string) : result (list fval) :=
  match columns df !! c with
  | Some s => Ok s
  | None => Raise KeyError
  end.

(** [df[c] = s]: adds the column, or replaces it; this mutates the frame. *)
Definition df_setitem (df : DataFrame) (c : string) (s : list fval) : DataFrame :=
  {| index := index df; columns := <[c := s]> (columns df) |}.

(** [s.iloc[-k]] for k >= 1: IndexError when the series has fewer than k
    values. *)
Definition iloc_neg (s : list fval) (k : nat) : result fval :=
  if decide (k <= length s)%nat then
    match s !! (length s - k)%nat with
    | Some x => Ok x
    | None => Raise IndexError
    end
  else Raise IndexError.

(** [df.iloc[-1]]: the last row, as a mapping from column name to value. *)
Definition df_iloc_last (df : DataFrame) : result (gmap string fval) :=
  if decide (1 <= len df)%nat then
    Ok (omap (fun col : list fval => col !! (len df - 1)%nat) (columns df))
  else Raise IndexError.

(** [row[c]] *)
Definition row_getitem (row : gmap string fval) (c : string) : result fval :=
  match row !! c with
  | Some x => Ok x
  | None => Raise KeyError
  end.

(** [s.rolling(n)]: the window that ends at position i holds the values at
    positions i-n+1 .. i that exist. *)
Definition window (n : nat) (xs : list fval) (i : nat) : list fval :=
  drop (S i - n) (take (S i) xs).

(** Mean of the observations (the values that are not NaN) of a window;
    NaN when there are fewer than [minp] of them. *)
Definition window_mean (minp : nat) (w : list fval) : fval :=
  let obs := filter (fun x => is_nan x = false) w in
  if decide (minp <= length obs)%nat
  then fdiv (fsum obs) (of_nat (length obs))
  else NaN.

(** [s.rolling(n).mean()]; [min_periods] defaults to the window size. *)
Definition rolling_mean (n : nat) (xs : list fval) : list fval :=
  fmap (fun i => window_mean n (window n xs i)) (seq 0 (length xs)).

(** [s.diff()] *)
Definition diff (xs : list fval) : list fval :=
  match xs with
  | [] => []
  | _ :: rest => NaN :: zip_with fsub rest xs
  end.

(** [s.mask(cond, other)]: [other] where the condition holds. *)
Definition mask (cond : fval -> bool) (other : fval) (xs : list fval) : list fval :=
  fmap (fun x => if cond x then other else x) xs.

(** [s.ewm(span=span, adjust=False).mean()], as the library's kernel
    computes it ([ignore_na=False], [min_periods=0]): the running value
    [weighted], the weight [old_wt] of the past and the number of
    observations so far. *)
Record ewm_state : Type := mkEwm {
  weighted : fval;
  old_wt : Qc;
  nobs : nat
}.

Definition ewm_com (span : Z) : Qc := ((Qc_of_Z span - 1) / 2)%Qc.
Definition ewm_alpha (span : Z) : Qc := (1 / (1 + ewm_com span))%Qc.

Definition ewm_out (st : ewm_state) : fval :=
  if decide (1 <= nobs st)%nat then weighted st else NaN.

Definition ewm_init (v0 : fval) : ewm_state :=
  {| weighted := v0; old_wt := 1%Qc; nobs := if is_nan v0 then 0%nat else 1%nat |}.

Definition ewm_step (alpha : Qc) (st : ewm_state) (cur : fval) : ewm_state :=
  let is_observation := negb (is_nan cur) in
  let nobs' := if is_observation then S (nobs st) else nobs st in
  if is_nan (weighted st) then
    {| weighted := if is_observation then cur else weighted st;
       old_wt := old_wt st; nobs := nobs' |}
  else
    let ow := (old_wt st * (1 - alpha))%Qc in
    if is_observation then
      {| weighted :=
           if decide (weighted st = cur) then weighted st
           else fdiv (fadd (fmul (Num ow) (weighted st)) (fmul (Num alpha) cur))
                     (Num (ow + alpha)%Qc);
         old_wt := 1%Qc; nobs := nobs' |}
    else {| weighted := weighted st; old_wt := ow; nobs := nobs' |}.

Fixpoint ewm_loop (alpha : Qc) (st : ewm_state) (vals : list fval) : list fval :=
  match vals with
  | [] => []
  | cur :: rest =>
      let st' := ewm_step alpha st cur in
      ewm_out st' :: ewm_loop alpha st' rest
  end.

Definition ewm_mean (span : Z) (vals : list fval) : list fval :=
  match vals with
  | [] => []
  | v0 :: rest => ewm_out (ewm_init v0) :: ewm_loop (ewm_alpha span) (ewm_init v0) rest
  end.

(** Code that reads and assigns columns of one shared frame and may raise:
    the frame is threaded through, and survives an exception. *)
Definition M (A : Type) : Type := DataFrame -> result A * DataFrame.

Definition ret {A} (a : A) : M A := fun df => (Ok a, df).

Definition bind {A B} (m : M A) (k : A -> M B) : M B :=
  fun df =>
    match m df with
    | (Ok a, df') => k a df'
    | (Raise e, df') => (Raise e, df')
    end.

Definition lift {A} (f : DataFrame -> result A) : M A := fun df => (f df, df).

Definition getitem (c : string) : M (list fval) := lift (fun df => df_getitem df c).

Definition setitem (c : string) (s : list fval) : M unit :=
  fun df => (Ok tt, df_setitem df c s).

End Pandas.
Export Pandas.

Notation "'dos' x <- m ; k" := (bind m (fun x => k))
  (at level 10, x name, m at level 100, k at level 200, only parsing).
Notation "m ;;; k" := (bind m (fun _ => k))
  (at level 100, k at level 200, right associativity, only parsing).

(** ** app.py *)

(** [pe_rating(pe)], lines 35-39. *)
Definition pe_rating (pe : pyval) : result string :=
  match pe with
  | PyNone => Ok "N/A"%string
  | _ =>
      do x <- as_num pe;
      if fle x (of_Z 0) then Ok "N/A"%string
      else if flt x (of_Z 20) then Ok "Excellent"%string
      else if fle x (of_Z 35) then Ok "Good"%string
      else Ok "Poor"%string
  end.

(** The momentum computation of the analysis handler, lines 149-151:
    [current = info.get("currentPrice", 0)],
    [prev = info.get("previousClose", current)],
    [momentum = round(((current - prev) / prev) * 100, 2)]. *)
Definition momentum (info : gmap string pyval) : result fval :=
  let current := dict_get info "currentPrice" (PyNum (of_Z 0)) in
  let prev := dict_get info "previousClose" current in
  do c <- as_num current;
  do p <- as_num prev;
  do q <- py_truediv (fsub c p) p;
  Ok (fround2 (fmul q (of_Z 100))).


(** [buying_recommendation(df)], lines 42-60.  The right-hand sides of
    lines 47, 48 and 50, as functions of the locals they read. *)
Definition avg_gain (delta : list fval) : list fval :=
  rolling_mean 14 (mask (fun d => flt d (of_Z 0)) (of_Z 0) delta).

Definition avg_loss (delta : list fval) : list fval :=
  rolling_mean 14 (fmap fneg (mask (fun d => fgt d (of_Z 0)) (of_Z 0) delta)).

Definition rsi_of_rs (rs : list fval) : list fval :=
  fmap (fun r => fsub (of_Z 100) (fdiv (of_Z 100) (fadd (of_Z 1) r))) rs.

(** The body of the [try]. *)
Definition recommendation_body : M Z :=
  dos close <- getitem "Close";
  setitem "SMA20" (rolling_mean 20 close) ;;;
  dos close <- getitem "Close";
  setitem "EMA20" (ewm_mean 20 close) ;;;
  dos close <- getitem "Close";
  let delta := diff close in
  let gain := avg_gain delta in
  let loss := avg_loss delta in
  let rs := zip_with fdiv gain loss in
  setitem "RSI" (rsi_of_rs rs) ;;;
  dos latest <- lift df_iloc_last;
  let score := 0 in
  dos c <- lift (fun _ => row_getitem latest "Close");
  dos sma <- lift (fun _ => row_getitem latest "SMA20");
  let score := score + (if fgt c sma then 40 else 0) in
  dos c' <- lift (fun _ => row_getitem latest "Close");
  dos ema <- lift (fun _ => row_getitem latest "EMA20");
  let score := score + (if fgt c' ema then 40 else 0) in
  dos rsi <- lift (fun _ => row_getitem latest "RSI");
  let score := score + (if flt rsi (of_Z 70) then 20 else 0) in
  ret (Z.min score 100).

(** The whole function: any exception of the body gives 50.  The result is
    the score together with the frame as the call leaves it. *)
Definition buying_recommendation (df : DataFrame) : Z * DataFrame :=
  match recommendation_body df with
  | (Ok score, df') => (score, df')
  | (Raise _, df') => (50, df')
  end.

(** [performance(df)], lines 63-70. *)
Definition perf_windows : list (nat * string) :=
  [(21%nat, "1 Month"%string); (63%nat, "3 Month"%string); (126%nat, "6 Month"%string)].

Definition perf_value (df : DataFrame) (days : nat) : result pyval :=
  if decide (days < len df)%nat then
    do c1 <- df_getitem df "Close";
    do latest <- iloc_neg c1 1;
    do c2 <- df_getitem df "Close";
    do base <- iloc_neg c2 days;
    do c3 <- df_getitem df "Close";
    do base' <- iloc_neg c3 days;
    Ok (PyNum (fround2 (fmul (fdiv (fsub latest base) base') (of_Z 100))))
  else Ok (PyStr "N/A").

Definition performance (df : DataFrame) : result (gmap string pyval) :=
  foldl (fun acc (w : nat * string) =>
           do perf <- acc;
           do v <- perf_value df (fst w);
           Ok (<[snd w := v]> perf))
        (Ok ∅) perf_windows.

(** ** Price series *)

(** A bar of the provider, and the frame the provider returns for a series
    of bars. *)
Record PriceBar : Type := mkBar {
  date : Z;
  open : Qc;
  high : Qc;
  low : Qc;
  close : Qc;
  volume : Z
}.

Definition closes (bars : list PriceBar) : list fval :=
  fmap (fun b => Num (close b)) bars.

Definition frame_of (bars : list PriceBar) : DataFrame :=
  {| index := fmap date bars;
     columns :=
       <["Open"%string := fmap (fun b => Num (open b)) bars]>
       (<["High"%string := fmap (fun b => Num (high b)) bars]>
       (<["Low"%string := fmap (fun b => Num (low b)) bars]>
       (<["Close"%string := closes bars]>
       (<["Volume"%string := fmap (fun b => of_Z (volume b)) bars]> ∅)))) |}.

(** A bar of which only the close matters, and a series given by closes. *)
Definition bar_of_close (d : Z) (c : Z) : PriceBar :=
  {| date := d; open := Qc_of_Z c; high := Qc_of_Z c; low := Qc_of_Z c;
     close := Qc_of_Z c; volume := 0 |}.

Definition series_of_closes (cs : list Z) : list PriceBar :=
  imap (fun i c => bar_of_close (Z.of_nat i) c) cs.

(** Closes rising by one per bar: [first], [first]+1, ..., n bars. *)
Definition linear_closes (first : Z) (n : nat) : list Z :=
  fmap (fun i => first + Z.of_nat i) (seq 0 n).

(** The same close on every bar. *)
Definition constant_closes (c : Z) (n : nat) : list Z := replicate n c.

Definition column (c : string) (df : DataFrame) : list fval :=
  default [] (columns df !! c).

(** ** Notions of the specification *)

(** The three contributions to the score and their total. *)
Definition sma_points (c sma : fval) : Z := if fgt c sma then 40 else 0.
Definition ema_points (c ema : fval) : Z := if fgt c ema then 40 else 0.
Definition rsi_points (rsi : fval) : Z := if flt rsi (of_Z 70) then 20 else 0.

(** The RSI series of a close series, and the two averages it is made of. *)
Definition rsi14 (cl : list fval) : list fval :=
  rsi_of_rs (zip_with fdiv (avg_gain (diff cl)) (avg_loss (diff cl))).

(** The frame after the three indicator columns of a close series [cl] have
    been assigned. *)
Definition with_indicators (df : DataFrame) (cl : list fval) : DataFrame :=
  df_setitem
    (df_setitem (df_setitem df "SMA20" (rolling_mean 20 cl)) "EMA20" (ewm_mean 20 cl))
    "RSI" (rsi14 cl).

(** Lines 52-58 on their own: the score computed from the last row of a
    frame that has the indicator columns. *)
Definition score_of_latest (df : DataFrame) : result Z :=
  do latest <- df_iloc_last df;
  do c <- row_getitem latest "Close";
  do sma <- row_getitem latest "SMA20";
  do c' <- row_getitem latest "Close";
  do ema <- row_getitem latest "EMA20";
  do rsi <- row_getitem latest "RSI";
  Ok (Z.min (0 + sma_points c sma + ema_points c' ema + rsi_points rsi) 100).

(** Sum and arithmetic mean of the [n] values at positions lo .. lo+n-1. *)
Definition qsum (qs : list Qc) : Qc := foldr Qcplus 0%Qc qs.


(** The change from each bar to the next, and the gain and the loss in a
    change, as lines 47 and 48 select them. *)
Definition changes (qs : list Qc) : list Qc := zip_with Qcminus (tail qs) qs.

Definition gain_part (d : Qc) : Qc :=
  if bool_decide (d < Qc_of_Z 0)%Qc then Qc_of_Z 0 else d.

Definition loss_part (d : Qc) : Qc :=
  (- (if bool_decide (Qc_of_Z 0 < d)%Qc then Qc_of_Z 0 else d))%Qc.

(** Line 50 on one pair of averages. *)
Definition rsi_value (g l : fval) : fval :=
  fsub (of_Z 100) (fdiv (of_Z 100) (fadd (of_Z 1) (fdiv g l))).

(** A close series that never falls. *)
Definition nondecreasing (qs : list Qc) : Prop :=
  forall i a b, qs !! i = Some a -> qs !! S i = Some b -> (a <= b)%Qc.


Definition prices (bars : list PriceBar) : list Qc := fmap close bars.

(** Sample series. *)
Definition bars_two : list PriceBar := series_of_closes [100; 110].
Definition bars_linear21 : list PriceBar := series_of_closes (linear_closes 100 21).
Definition bars_flat15 : list PriceBar := series_of_closes (constant_closes 100 15).

(** ** Further notions *)

(** A frame is rectangular when every column has one value per row. *)
Definition rectangular (df : DataFrame) : Prop :=
  forall (c : string) (col : list fval),
    columns df !! c = Some col -> length col = len df.


Definition falling (qs : list Qc) : Prop :=
  forall i a b, qs !! i = Some a -> qs !! S i = Some b -> (b < a)%Qc.

(** The three labels of the performance summary. *)
Definition perf_labels : gset string :=
  {[ "1 Month"%string; "3 Month"%string; "6 Month"%string ]}.

(** An entry of the performance summary that is a number. *)
Definition is_number (v : option pyval) : Prop :=
  exists x : fval, v = Some (PyNum x).

(** A series whose close 21 bars from the end is zero. *)
Definition bars_zero_base : list PriceBar :=
  series_of_closes (5 :: linear_closes 0 21).



(** Closes falling by one per bar: [first], [first]-1, ..., n bars. *)
Definition falling_closes (first : Z) (n : nat) : list Z :=
  fmap (fun i => first - Z.of_nat i) (seq 0 n).

Definition bars_falling16 : list PriceBar := series_of_closes (falling_closes 200 16).

(** ** Text *)

(** Text that may hold characters outside ASCII is a sequence of Unicode
    code points, as a Python [str] is; ASCII literals are written as Rocq
    strings. *)
Module Text.

Definition text : Type := list N.

Definition lit (s : string) : text := N_of_ascii <$> String.list_ascii_of_string s.

(** U+20B9, the rupee sign. *)
Definition rupee : N := 8377%N.


(** Decimal digits, most significant first. *)
Fixpoint uint_text (d : Decimal.uint) : text :=
  match d with
  | Decimal.Nil => []
  | Decimal.D0 d => 48%N :: uint_text d
  | Decimal.D1 d => 49%N :: uint_text d
  | Decimal.D2 d => 50%N :: uint_text d
  | Decimal.D3 d => 51%N :: uint_text d
  | Decimal.D4 d => 52%N :: uint_text d
  | Decimal.D5 d => 53%N :: uint_text d
  | Decimal.D6 d => 54%N :: uint_text d
  | Decimal.D7 d => 55%N :: uint_text d
  | Decimal.D8 d => 56%N :: uint_text d
  | Decimal.D9 d => 57%N :: uint_text d
  end.

Definition decimal (n : N) : text := uint_text (N.to_uint n).

(** Two digits, for a number below 100. *)
Definition two_digits (n : N) : text := [(48 + n / 10)%N; (48 + n mod 10)%N].

(** [format(x, ".2f")]: the value rounded half to even to two decimals;
    the sign is that of the value, also when it rounds to zero. *)
Definition format_2f (x : fval) : text :=
  match x with
  | NaN => lit "nan"
  | PInf => lit "inf"
  | NInf => lit "-inf"
  | Num q =>
      let m := Z.to_N (Z.abs (rint (q * 100)%Q)) in
      (if bool_decide (q < 0)%Qc then lit "-" else [])
      ++ decimal (m / 100) ++ lit "." ++ two_digits (m mod 100)
  end.






End Text.
Export Text.

(** [format_market_cap(value)], lines 28-32: the body of the [try], and the
    function.  Dividing by the float 1e7 raises TypeError for None and for a
    string, and nothing for a number. *)
Definition market_cap_body (value : pyval) : result text :=
  do x <- as_num value;
  Ok (rupee :: format_2f (fdiv x (of_Z 10000000)) ++ lit " Cr").

Definition format_market_cap (value : pyval) : text :=
  match market_cap_body value with
  | Ok t => t
  | Raise _ => lit "N/A"
  end.

(** [get_all_nse_stocks()], lines 17-23.  What [pd.read_csv(url)] returns
    is a parameter: an exception, or the columns of the file, whose cells
    are strings or (for an empty cell) the float NaN. *)
Fixpoint traverse {A B : Type} (f : A -> result B) (l : list A) : result (list B) :=
  match l with
  | [] => Ok []
  | x :: r => do y <- f x; do ys <- traverse f r; Ok (y :: ys)
  end.

(** [s + ".NS"]: TypeError unless [s] is a string. *)
Definition add_ns (v : pyval) : result string :=
  match v with
  | PyStr s => Ok (String.append s ".NS")
  | _ => Raise TypeError
  end.

Definition fallback_stocks : list string :=
  ["RELIANCE.NS"%string; "TCS.NS"%string; "INFY.NS"%string].

Definition nse_stocks_body (csv : result (gmap string (list pyval))) : result (list string) :=
  do df <- csv;
  do symbols <- match df !! "SYMBOL"%string with
                | Some col => Ok col
                | None => Raise KeyError
                end;
  traverse add_ns symbols.

Definition get_all_nse_stocks (csv : result (gmap string (list pyval))) : list string :=
  match nse_stocks_body csv with
  | Ok stocks => stocks
  | Raise _ => fallback_stocks
  end.

(** Line 138: [[s for s in nse_stock_list if search in s][:20]]. *)
Fixpoint starts_with (pat s : string) : bool :=
  match pat, s with
  | EmptyString, _ => true
  | String a p, String b r => if decide (a = b) then starts_with p r else false
  | String _ _, EmptyString => false
  end.

(** [pat in s] *)
Fixpoint contains (pat s : string) : bool :=
  if starts_with pat s then true
  else match s with
       | EmptyString => false
       | String _ r => contains pat r
       end.

Definition suggestions (search : string) (stocks : list string) : list string :=
  take 20 (filter (fun s => contains search s = true) stocks).

(** [save_pdf(symbol, data)], lines 82-126: the file name and the story
    handed to the document builder.  [now] is the broken-down local time;
    [%Y] is written for the years 1000 to 9999. *)
Record datetime : Type := mkDatetime {
  year : N; month : N; day : N;
  hour : N; minute : N; second : N;
  weekday : N
}.

Definition year_digits (y : N) : text :=
  [(48 + y / 1000)%N; (48 + y / 100 mod 10)%N; (48 + y / 10 mod 10)%N; (48 + y mod 10)%N].

(** [now.strftime('%d-%m-%Y')] *)
Definition strftime_date (now : datetime) : text :=
  two_digits (day now) ++ lit "-" ++ two_digits (month now) ++ lit "-"
  ++ year_digits (year now).

(** [now.strftime('%d-%m-%Y %H-%M-%S')] *)
Definition strftime_stamp (now : datetime) : text :=
  strftime_date now ++ lit " " ++ two_digits (hour now) ++ lit "-"
  ++ two_digits (minute now) ++ lit "-" ++ two_digits (second now).



Definition pdf_filename (symbol : text) (now : datetime) : text :=
  symbol ++ lit " - Jayesh Thakor Analysis - " ++ strftime_stamp now ++ lit ".pdf".

(** [os.path.join(a, b)] on POSIX, for two components. *)
Definition path_join (a b : text) : text :=
  if decide (head b = Some 47%N) then b
  else if decide (a = []) then b
  else if decide (last a = Some 47%N) then a ++ b
  else a ++ 47%N :: b.

Definition pdf_path (symbol : text) (now : datetime) : text :=
  path_join (lit "Stock_Reports") (pdf_filename symbol now).

Inductive style : Type := TitleStyle | HeaderStyle | SectionStyle | BodyStyle.

#[global] Instance style_eq_dec : EqDecision style.
Proof. solve_decision. Defined.











(** A time of day on a date, with the year written in four digits. *)
Definition valid_time (now : datetime) : Prop :=
  (1000 <= year now <= 9999)%N /\ (1 <= month now <= 12)%N /\ (1 <= day now <= 31)%N /\
  (hour now < 24)%N /\ (minute now < 60)%N /\ (second now < 60)%N /\ (weekday now < 7)%N.

(** [pat] occurs in [s]. *)
Definition occurs_in (pat s : string) : Prop :=
  exists pre post : string, s = String.append pre (String.append pat post).

Definition ends_with_ns (s : string) : Prop :=
  exists stem : string, s = String.append stem ".NS".

(** Sample data for the report. *)
Definition sample_time : datetime :=
  {| year := 2026; month := 11; day := 4; hour := 9; minute := 5; second := 0;
     weekday := 2 |}.

(** * Properties *)

(** ** Comparisons and constants *)

Section FloatFacts.

Local Open Scope Qc_scope.

Lemma flt_Num (a b : Qc) : flt (Num a) (Num b) = true <-> a < b.
Proof. simpl. apply bool_decide_eq_true. Qed.

Lemma fle_Num (a b : Qc) : fle (Num a) (Num b) = true <-> a <= b.
Proof. simpl. apply bool_decide_eq_true. Qed.

Lemma flt_Num_false (a b : Qc) : flt (Num a) (Num b) = false <-> b <= a.
Proof. simpl. rewrite bool_decide_eq_false. symmetry. apply Qcle_ngt. Qed.

Lemma fle_Num_false (a b : Qc) : fle (Num a) (Num b) = false <-> b < a.
Proof. simpl. rewrite bool_decide_eq_false. symmetry. apply Qclt_nge. Qed.

Lemma Qc_of_Z_lt (m n : Z) : (m < n)%Z -> Qc_of_Z m < Qc_of_Z n.
Proof.
  intros H. unfold Qclt, Qc_of_Z. simpl. unfold Qlt. simpl. lia.
Qed.

Lemma Qc_of_Z_0 : Qc_of_Z 0 = 0.
Proof. apply Qc_is_canon. reflexivity. Qed.

Lemma Qc_of_Z_1 : Qc_of_Z 1 = 1.
Proof. apply Qc_is_canon. reflexivity. Qed.

End FloatFacts.

(** ** P/E rating *)

(** C10. For every trailing P/E: None and every value <= 0 give "N/A",
    a value in (0, 20) gives "Excellent", a value in [20, 35] gives "Good",
    a value above 35 gives "Poor"; so 15, 25, 40, -5 and None are rated
    "Excellent", "Good", "Poor", "N/A" and "N/A". *)
Theorem pe_rating_classes (q : Qc) :
  pe_rating PyNone = Ok "N/A"%string /\
  ((q <= Qc_of_Z 0)%Qc -> pe_rating (PyNum (Num q)) = Ok "N/A"%string) /\
  ((Qc_of_Z 0 < q)%Qc -> (q < Qc_of_Z 20)%Qc ->
     pe_rating (PyNum (Num q)) = Ok "Excellent"%string) /\
  ((Qc_of_Z 20 <= q)%Qc -> (q <= Qc_of_Z 35)%Qc ->
     pe_rating (PyNum (Num q)) = Ok "Good"%string) /\
  ((Qc_of_Z 35 < q)%Qc -> pe_rating (PyNum (Num q)) = Ok "Poor"%string).
Proof.
  assert (H020 : (Qc_of_Z 0 < Qc_of_Z 20)%Qc) by (apply Qc_of_Z_lt; lia).
  assert (H2035 : (Qc_of_Z 20 < Qc_of_Z 35)%Qc) by (apply Qc_of_Z_lt; lia).
  split; [reflexivity|].
  unfold pe_rating, as_num, rbind, of_Z.
  repeat split.
  - intros H. apply fle_Num in H. by rewrite H.
  - intros H0 H20.
    apply fle_Num_false in H0. apply flt_Num in H20. by rewrite H0, H20.
  - intros H20 H35.
    assert (H0 : (Qc_of_Z 0 < q)%Qc) by (eapply Qclt_le_trans; eauto).
    apply fle_Num_false in H0. apply flt_Num_false in H20. apply fle_Num in H35.
    by rewrite H0, H20, H35.
  - intros H35.
    assert (H20 : (Qc_of_Z 20 <= q)%Qc).
    { apply Qclt_le_weak. eapply Qclt_trans; eauto. }
    assert (H0 : (Qc_of_Z 0 < q)%Qc) by (eapply Qclt_le_trans; eauto).
    apply fle_Num_false in H0. apply flt_Num_false in H20. apply fle_Num_false in H35.
    by rewrite H0, H20, H35.
Qed.

Lemma pe_rating_classes_witness :
  pe_rating (PyNum (of_Z 15)) = Ok "Excellent"%string /\
  pe_rating (PyNum (of_Z 25)) = Ok "Good"%string /\
  pe_rating (PyNum (of_Z 40)) = Ok "Poor"%string /\
  pe_rating (PyNum (of_Z (-5))) = Ok "N/A"%string /\
  pe_rating PyNone = Ok "N/A"%string.
Proof.
  split; [|split; [|split; [|split]]].
  - apply (pe_rating_classes (Qc_of_Z 15)); apply Qc_of_Z_lt; lia.
  - apply (pe_rating_classes (Qc_of_Z 25)); apply Qclt_le_weak, Qc_of_Z_lt; lia.
  - apply (pe_rating_classes (Qc_of_Z 40)); apply Qc_of_Z_lt; lia.
  - apply (pe_rating_classes (Qc_of_Z (-5))); apply Qclt_le_weak, Qc_of_Z_lt; lia.
  - exact (proj1 (pe_rating_classes (Qc_of_Z 0))).
Defined.

(** The infinities are rated like the numbers on their side; NaN, for which
    every comparison fails, falls through to the last case. *)
Lemma pe_rating_special :
  pe_rating (PyNum PInf) = Ok "Poor"%string /\
  pe_rating (PyNum NInf) = Ok "N/A"%string /\
  pe_rating (PyNum NaN) = Ok "Poor"%string /\
  pe_rating (PyStr "Infinity") = Raise TypeError.
Proof. repeat split. Qed.

(** ** Momentum *)

(** C2. With currentPrice and previousClose both missing the two defaults
    make the divisor 0, and the division raises ZeroDivisionError; nothing
    around it catches the exception. *)
Theorem momentum_missing_prices_raises (info : gmap string pyval) :
  info !! "currentPrice"%string = None ->
  info !! "previousClose"%string = None ->
  momentum info = Raise ZeroDivisionError.
Proof.
  intros Hc Hp. unfold momentum, dict_get. rewrite Hc, Hp. reflexivity.
Qed.

Lemma momentum_missing_prices_raises_witness :
  momentum {[ "marketCap"%string := PyNum (of_Z 2000000000);
              "trailingPE"%string := PyNum (of_Z 18) ]}
  = Raise ZeroDivisionError.
Proof.
  apply momentum_missing_prices_raises; reflexivity.
Defined.

(** The same happens whenever the previous close is reported as 0. *)
Lemma momentum_zero_previous_close (info : gmap string pyval) (c : fval) :
  info !! "currentPrice"%string = Some (PyNum c) ->
  info !! "previousClose"%string = Some (PyNum (Num 0%Qc)) ->
  momentum info = Raise ZeroDivisionError.
Proof.
  intros Hc Hp. unfold momentum, dict_get. rewrite Hc, Hp. reflexivity.
Qed.

(** ** Series: rolling windows *)

Section Rolling.

Local Open Scope nat_scope.
Implicit Types (xs w : list fval) (qs : list Qc) (n i : nat).

Lemma length_rolling_mean n xs : length (rolling_mean n xs) = length xs.
Proof. unfold rolling_mean. by rewrite length_fmap, length_seq. Qed.

Lemma lookup_rolling_mean n xs i :
  i < length xs ->
  rolling_mean n xs !! i = Some (window_mean n (window n xs i)).
Proof.
  intros Hi. unfold rolling_mean.
  rewrite list_lookup_fmap, lookup_seq_lt by done. reflexivity.
Qed.

Lemma filter_observations_nums qs :
  filter (fun x => is_nan x = false) (Num <$> qs) = Num <$> qs.
Proof.
  induction qs as [|q qs IH]; [done|].
  rewrite fmap_cons, filter_cons_True by done. by rewrite IH.
Qed.

Lemma fsum_nums qs : fsum (Num <$> qs) = Num (qsum qs).
Proof.
  induction qs as [|q qs IH]; [done|].
  rewrite fmap_cons. unfold fsum in *. simpl. by rewrite IH.
Qed.

Lemma Qc_of_nat_nonzero n : 0 < n -> Qc_of_Z (Z.of_nat n) <> 0%Qc.
Proof.
  intros Hn Heq. rewrite <- Qc_of_Z_0 in Heq.
  apply (f_equal this) in Heq. simpl in Heq.
  apply (f_equal Qnum) in Heq. simpl in Heq. lia.
Qed.

Lemma Qc_of_nat_pos n : 0 < n -> (0 < Qc_of_Z (Z.of_nat n))%Qc.
Proof.
  intros Hn. rewrite <- Qc_of_Z_0. apply Qc_of_Z_lt. lia.
Qed.

(** A window of numbers that is long enough has their mean. *)
Lemma window_mean_nums n qs :
  0 < length qs -> n <= length qs ->
  window_mean n (Num <$> qs)
  = Num (qsum qs / Qc_of_Z (Z.of_nat (length qs)))%Qc.
Proof.
  intros Hpos Hn. unfold window_mean.
  rewrite filter_observations_nums, length_fmap.
  rewrite decide_True by done.
  rewrite fsum_nums. unfold of_nat, of_Z, fdiv.
  rewrite decide_False by (by apply Qc_of_nat_nonzero). reflexivity.
Qed.

(** A window with fewer than [minp] values has no mean. *)
Lemma window_mean_short n w : length w < n -> window_mean n w = NaN.
Proof.
  intros Hlen. unfold window_mean.
  rewrite decide_False; [done|].
  pose proof (length_filter (fun x => is_nan x = false) w). lia.
Qed.

Lemma window_nums n qs i :
  window n (Num <$> qs) i = Num <$> drop (S i - n) (take (S i) qs).
Proof. unfold window. by rewrite fmap_drop, fmap_take. Qed.

Lemma length_window n xs i :
  i < length xs -> length (window n xs i) = Nat.min n (S i).
Proof.
  intros Hi. unfold window. rewrite length_drop, length_take. lia.
Qed.

(** A series that starts with one NaN: the windows that reach back to the
    start are one observation short. *)
Lemma window_after_nan n qs i :
  n <= i ->
  window n (NaN :: (Num <$> qs)) i = Num <$> drop (i - n) (take i qs).
Proof.
  intros Hn. unfold window.
  replace (S i - n) with (S (i - n)) by lia.
  simpl. by rewrite fmap_drop, fmap_take.
Qed.

Lemma window_mean_reaching_nan n qs i :
  i < n -> window_mean n (window n (NaN :: (Num <$> qs)) i) = NaN.
Proof.
  intros Hi. unfold window, window_mean.
  replace (S i - n) with 0 by lia. simpl.
  rewrite filter_cons_False by done.
  rewrite decide_False; [done|].
  pose proof (length_filter (fun x => is_nan x = false) (take i (Num <$> qs))) as Hf.
  rewrite length_take in Hf. lia.
Qed.


End Rolling.

(** ** The scoring operation, step by step *)

Section Scoring.

Implicit Types (df : DataFrame) (cl : list fval).

Lemma recommendation_body_no_close df :
  columns df !! "Close"%string = None ->
  recommendation_body df = (Raise KeyError, df).
Proof.
  intros Hc. unfold recommendation_body, bind, getitem, lift, df_getitem.
  by rewrite Hc.
Qed.

Lemma recommendation_body_close df cl :
  columns df !! "Close"%string = Some cl ->
  recommendation_body df = (score_of_latest (with_indicators df cl), with_indicators df cl).
Proof.
  intros Hc.
  unfold recommendation_body, bind, getitem, setitem, lift, df_getitem, ret.
  rewrite Hc. cbn [columns df_setitem].
  rewrite lookup_insert_ne by done. rewrite Hc.
  rewrite lookup_insert_ne by done. rewrite lookup_insert_ne by done. rewrite Hc.
  fold (rsi14 cl). fold (with_indicators df cl).
  unfold score_of_latest.
  destruct (df_iloc_last (with_indicators df cl)) as [latest|e]; [|done].
  cbn [rbind].
  destruct (row_getitem latest "Close") as [c|e]; [|done]. cbn [rbind].
  destruct (row_getitem latest "SMA20") as [sma|e]; [|done]. cbn [rbind].
  destruct (row_getitem latest "EMA20") as [ema|e]; [|done]. cbn [rbind].
  destruct (row_getitem latest "RSI") as [rsi|e]; [|done]. cbn [rbind].
  reflexivity.
Qed.

End Scoring.

(** ** Frames of price series *)

Section Frames.

Local Open Scope nat_scope.
Implicit Types (bars : list PriceBar) (df : DataFrame) (xs cl : list fval).

Lemma length_closes bars : length (closes bars) = length bars.
Proof. unfold closes. apply length_fmap. Qed.

Lemma closes_prices bars : closes bars = Num <$> prices bars.
Proof. unfold closes, prices. by rewrite <- list_fmap_compose. Qed.

Lemma length_prices bars : length (prices bars) = length bars.
Proof. unfold prices. apply length_fmap. Qed.

Lemma frame_of_close bars : columns (frame_of bars) !! "Close"%string = Some (closes bars).
Proof. unfold frame_of. cbn [columns]. by simplify_map_eq. Qed.

Lemma len_frame_of bars : len (frame_of bars) = length bars.
Proof. unfold len, frame_of. cbn [index]. apply length_fmap. Qed.

Lemma len_with_indicators df cl : len (with_indicators df cl) = len df.
Proof. reflexivity. Qed.

Lemma length_ewm_loop alpha st xs : length (ewm_loop alpha st xs) = length xs.
Proof.
  revert st. induction xs as [|x xs IH]; intros st; [done|].
  simpl. by rewrite IH.
Qed.

Lemma length_ewm_mean span xs : length (ewm_mean span xs) = length xs.
Proof. destruct xs as [|x xs]; [done|]. simpl. by rewrite length_ewm_loop. Qed.

Lemma length_diff xs : length (diff xs) = length xs.
Proof.
  destruct xs as [|x xs]; [done|]. simpl.
  rewrite length_zip_with. simpl. lia.
Qed.

Lemma length_rsi14 cl : length (rsi14 cl) = length cl.
Proof.
  unfold rsi14, rsi_of_rs, avg_gain, avg_loss, mask.
  rewrite length_fmap, length_zip_with, !length_rolling_mean, !length_fmap, length_diff.
  lia.
Qed.

(** The columns of the frame the call leaves behind. *)
Lemma with_indicators_columns df cl :
  columns (with_indicators df cl) !! "SMA20"%string = Some (rolling_mean 20 cl) /\
  columns (with_indicators df cl) !! "EMA20"%string = Some (ewm_mean 20 cl) /\
  columns (with_indicators df cl) !! "RSI"%string = Some (rsi14 cl) /\
  forall c : string,
    c <> "SMA20"%string -> c <> "EMA20"%string -> c <> "RSI"%string ->
    columns (with_indicators df cl) !! c = columns df !! c.
Proof.
  unfold with_indicators, df_setitem. cbn [columns].
  repeat split; intros; by simplify_map_eq.
Qed.

(** The last row of a frame that has rows holds the last value of every
    column. *)
Lemma df_iloc_last_lookup df :
  1 <= len df ->
  exists row, df_iloc_last df = Ok row /\
    forall c : string,
      row !! c = columns df !! c ≫= (fun col : list fval => col !! (len df - 1)).
Proof.
  intros Hlen. unfold df_iloc_last. rewrite decide_True by done.
  eexists. split; [done|]. intros c. by rewrite lookup_omap.
Qed.

Lemma row_getitem_Some (row : gmap string fval) (c : string) x :
  row !! c = Some x -> row_getitem row c = Ok x.
Proof. intros H. unfold row_getitem. by rewrite H. Qed.

(** On the frame of a series that has bars the body does not raise: the
    score is made of the last values of the four columns. *)
Lemma score_of_series bars :
  bars <> [] ->
  exists c sma ema rsi : fval,
    closes bars !! (length bars - 1) = Some c /\
    rolling_mean 20 (closes bars) !! (length bars - 1) = Some sma /\
    ewm_mean 20 (closes bars) !! (length bars - 1) = Some ema /\
    rsi14 (closes bars) !! (length bars - 1) = Some rsi /\
    score_of_latest (with_indicators (frame_of bars) (closes bars))
    = Ok (Z.min (0 + sma_points c sma + ema_points c ema + rsi_points rsi) 100).
Proof.
  intros Hne.
  assert (Hlen : 1 <= length bars) by (destruct bars; [done|simpl; lia]).
  set (df := with_indicators (frame_of bars) (closes bars)).
  assert (Hl : len df = length bars) by (unfold df; by rewrite len_with_indicators, len_frame_of).
  destruct (df_iloc_last_lookup df) as (row & Hrow & Hget); [lia|].
  destruct (with_indicators_columns (frame_of bars) (closes bars)) as (Hs & He & Hr & Ho).
  fold df in Hs, He, Hr, Ho.
  destruct (lookup_lt_is_Some_2 (closes bars) (length bars - 1)) as [c Hc];
    [rewrite length_closes; lia|].
  destruct (lookup_lt_is_Some_2 (rolling_mean 20 (closes bars)) (length bars - 1)) as [sma Hsma];
    [rewrite length_rolling_mean, length_closes; lia|].
  destruct (lookup_lt_is_Some_2 (ewm_mean 20 (closes bars)) (length bars - 1)) as [ema Hema];
    [rewrite length_ewm_mean, length_closes; lia|].
  destruct (lookup_lt_is_Some_2 (rsi14 (closes bars)) (length bars - 1)) as [rsi Hrsi];
    [rewrite length_rsi14, length_closes; lia|].
  exists c, sma, ema, rsi. repeat (split; [done|]).
  unfold score_of_latest. rewrite Hrow. cbn [rbind].
  assert (Hrc : row !! "Close"%string = Some c).
  { rewrite Hget, Ho by done. rewrite frame_of_close. simpl. by rewrite Hl. }
  assert (Hrs : row !! "SMA20"%string = Some sma).
  { rewrite Hget, Hs. simpl. by rewrite Hl. }
  assert (Hre : row !! "EMA20"%string = Some ema).
  { rewrite Hget, He. simpl. by rewrite Hl. }
  assert (Hrr : row !! "RSI"%string = Some rsi).
  { rewrite Hget, Hr. simpl. by rewrite Hl. }
  rewrite (row_getitem_Some _ _ _ Hrc), (row_getitem_Some _ _ _ Hrs),
    (row_getitem_Some _ _ _ Hre), (row_getitem_Some _ _ _ Hrr).
  reflexivity.
Qed.

(** What the call returns and leaves behind, on the frame of a series. *)
Lemma buying_recommendation_series bars :
  buying_recommendation (frame_of bars)
  = (match score_of_latest (with_indicators (frame_of bars) (closes bars)) with
     | Ok score => score
     | Raise _ => 50%Z
     end,
     with_indicators (frame_of bars) (closes bars)).
Proof.
  unfold buying_recommendation.
  rewrite (recommendation_body_close _ _ (frame_of_close bars)).
  by destruct (score_of_latest _).
Qed.

Lemma column_after_call bars (c : string) :
  column c (snd (buying_recommendation (frame_of bars)))
  = default [] (columns (with_indicators (frame_of bars) (closes bars)) !! c).
Proof. by rewrite buying_recommendation_series. Qed.

End Frames.

(** ** Recommendation score *)

Section Score.

Local Open Scope Z_scope.


Lemma row_getitem_Ok (row : gmap string fval) (c : string) (x : fval) :
  row_getitem row c = Ok x -> row !! c = Some x.
Proof. unfold row_getitem. destruct (row !! c); congruence. Qed.

Lemma score_of_latest_Ok (df : DataFrame) (score : Z) :
  score_of_latest df = Ok score ->
  exists (latest : gmap string fval) (c sma ema rsi : fval),
    df_iloc_last df = Ok latest /\
    latest !! "Close"%string = Some c /\
    latest !! "SMA20"%string = Some sma /\
    latest !! "EMA20"%string = Some ema /\
    latest !! "RSI"%string = Some rsi /\
    score = Z.min (0 + sma_points c sma + ema_points c ema + rsi_points rsi) 100.
Proof.
  unfold score_of_latest. intros H.
  destruct (df_iloc_last df) as [latest|]; [|done]. cbn [rbind] in H.
  destruct (row_getitem latest "Close") as [c|] eqn:Hc; [|done]. cbn [rbind] in H.
  destruct (row_getitem latest "SMA20") as [sma|] eqn:Hs; [|done]. cbn [rbind] in H.
  destruct (row_getitem latest "EMA20") as [ema|] eqn:He; [|done]. cbn [rbind] in H.
  destruct (row_getitem latest "RSI") as [rsi|] eqn:Hr; [|done]. cbn [rbind] in H.
  exists latest, c, sma, ema, rsi.
  apply row_getitem_Ok in Hc, Hs, He, Hr. by simplify_eq.
Qed.

End Score.



(** ** Insufficient history *)

Section ShortHistory.

Local Open Scope nat_scope.

(** SMA-20 has no value at the first 19 positions. *)
Lemma sma_undefined_early (xs : list fval) (i : nat) :
  i < length xs -> i < 19 -> rolling_mean 20 xs !! i = Some NaN.
Proof.
  intros Hi H19. rewrite lookup_rolling_mean by done.
  f_equal. apply window_mean_short. rewrite length_window by done. lia.
Qed.

Lemma fgt_NaN (c : fval) : fgt c NaN = false.
Proof. reflexivity. Qed.

End ShortHistory.

(** The claim of C1 fails on a series of two bars, 100 then 110: the call
    returns 40. *)
Lemma short_series_not_sentinel :
  ~ ((length bars_two < 20)%nat ->
     fst (buying_recommendation (frame_of bars_two)) = 50).
Proof.
  intros H. specialize (H ltac:(vm_compute; lia)).
  vm_compute in H. discriminate.
Qed.

(** C1, amended. A series with fewer than 20 bars makes the scoring
    operation return 50 only when it is empty (there is no last row and the
    exception is caught).  When it has bars, nothing is raised: SMA-20 of
    the latest bar is NaN, its comparison is false, and the score is the sum
    of the EMA and the RSI contributions, one of 0, 20, 40, 60. *)
Theorem short_series_score (bars : list PriceBar) :
  (length bars < 20)%nat ->
  (bars = [] -> fst (buying_recommendation (frame_of bars)) = 50) /\
  (bars <> [] ->
   exists (c ema rsi : fval) (score : Z),
     closes bars !! (length bars - 1)%nat = Some c /\
     ewm_mean 20 (closes bars) !! (length bars - 1)%nat = Some ema /\
     rsi14 (closes bars) !! (length bars - 1)%nat = Some rsi /\
     rolling_mean 20 (closes bars) !! (length bars - 1)%nat = Some NaN /\
     fst (recommendation_body (frame_of bars)) = Ok score /\
     fst (buying_recommendation (frame_of bars)) = score /\
     score = (if fgt c ema then 40 else 0) + (if flt rsi (of_Z 70) then 20 else 0) /\
     In score [0; 20; 40; 60]).
Proof.
  intros Hshort. split.
  - intros ->. reflexivity.
  - intros Hne.
    destruct (score_of_series bars Hne) as (c & sma & ema & rsi & Hc & Hs & He & Hr & Hscore).
    assert (Hlen : (1 <= length bars)%nat) by (destruct bars; [done|simpl; lia]).
    rewrite sma_undefined_early in Hs by (rewrite ?length_closes; lia).
    injection Hs as <-.
    exists c, ema, rsi.
    exists ((if fgt c ema then 40 else 0) + (if flt rsi (of_Z 70) then 20 else 0)).
    do 3 (split; [done|]).
    split; [apply sma_undefined_early; rewrite ?length_closes; lia|].
    assert (Hval : score_of_latest (with_indicators (frame_of bars) (closes bars))
                   = Ok ((if fgt c ema then 40 else 0) + (if flt rsi (of_Z 70) then 20 else 0))).
    { rewrite Hscore. unfold sma_points, ema_points, rsi_points. rewrite fgt_NaN.
      f_equal. destruct (fgt c ema), (flt rsi (of_Z 70)); reflexivity. }
    split.
    { rewrite (recommendation_body_close _ _ (frame_of_close bars)). exact Hval. }
    split.
    { rewrite buying_recommendation_series, Hval. reflexivity. }
    split; [reflexivity|].
    destruct (fgt c ema), (flt rsi (of_Z 70)); simpl; tauto.
Qed.

Lemma short_series_score_witness :
  fst (buying_recommendation (frame_of [])) = 50 /\
  exists score : Z,
    fst (buying_recommendation (frame_of bars_two)) = score /\
    In score [0; 20; 40; 60].
Proof.
  split.
  - apply (short_series_score []); [simpl; lia|reflexivity].
  - destruct (short_series_score bars_two) as [_ H]; [vm_compute; lia|].
    destruct H as (c & ema & rsi & score & _ & _ & _ & _ & _ & Hs & _ & Hin);
      [discriminate|].
    exists score. split; [exact Hs|exact Hin].
Defined.

(** ** Effect on the frame *)

(** The claim of C4 fails: after the call the frame of the two-bar series
    is no longer the frame that was passed. *)
Lemma scoring_changes_frame :
  snd (buying_recommendation (frame_of bars_two)) <> frame_of bars_two.
Proof.
  intros H.
  apply (f_equal (fun df => columns df !! "SMA20"%string)) in H.
  vm_compute in H. discriminate.
Qed.

(** C4, amended. The scoring operation keeps the index and every column of
    the frame it is given other than SMA20, EMA20 and RSI, which it assigns
    (adds or overwrites) when the frame has a Close column. *)
Theorem scoring_frame_effect (df : DataFrame) (c : string) :
  c <> "SMA20"%string -> c <> "EMA20"%string -> c <> "RSI"%string ->
  index (snd (buying_recommendation df)) = index df /\
  columns (snd (buying_recommendation df)) !! c = columns df !! c /\
  (forall cl : list fval,
     columns df !! "Close"%string = Some cl ->
     columns (snd (buying_recommendation df)) !! "SMA20"%string = Some (rolling_mean 20 cl) /\
     columns (snd (buying_recommendation df)) !! "EMA20"%string = Some (ewm_mean 20 cl) /\
     columns (snd (buying_recommendation df)) !! "RSI"%string = Some (rsi14 cl)).
Proof.
  intros H1 H2 H3. unfold buying_recommendation.
  destruct (columns df !! "Close"%string) as [cl|] eqn:Hcl.
  - rewrite (recommendation_body_close _ _ Hcl).
    destruct (with_indicators_columns df cl) as (Hs & He & Hr & Ho).
    assert (Hsnd : snd (match score_of_latest (with_indicators df cl) with
                        | Ok score => (score, with_indicators df cl)
                        | Raise _ => (50, with_indicators df cl)
                        end) = with_indicators df cl)
      by (by destruct (score_of_latest _)).
    rewrite Hsnd. split; [reflexivity|]. split; [by apply Ho|].
    intros cl' [= <-]. done.
  - rewrite (recommendation_body_no_close _ Hcl). simpl.
    split; [reflexivity|]. split; [reflexivity|]. intros cl' [=].
Qed.

Lemma scoring_frame_effect_witness :
  columns (snd (buying_recommendation (frame_of bars_two))) !! "Close"%string
  = Some (closes bars_two).
Proof.
  destruct (scoring_frame_effect (frame_of bars_two) "Close") as (_ & Hc & _);
    [discriminate|discriminate|discriminate|].
  rewrite Hc. apply frame_of_close.
Defined.

(** ** SMA-20 *)



(** ** EMA-20 *)

Section Ema.

Local Open Scope Qc_scope.

Lemma ewm_alpha_20 : ewm_alpha 20 = Qc_of_Z 2 / Qc_of_Z 21.
Proof. apply Qc_is_canon. reflexivity. Qed.

(** One step of the kernel on numbers is one step of the recurrence. *)
Lemma ewm_step_num (alpha w c : Qc) (k : nat) :
  ewm_step alpha (mkEwm (Num w) 1 k) (Num c)
  = mkEwm (Num (c * alpha + w * (1 - alpha))) 1 (S k).
Proof.
  unfold ewm_step. cbn [is_nan weighted old_wt nobs negb].
  f_equal.
  destruct (decide (Num w = Num c)) as [[= ->]|Hne].
  - f_equal. ring.
  - cbn [fmul fadd fdiv].
    assert (Hone : 1 * (1 - alpha) + alpha = 1) by ring.
    rewrite Hone. rewrite decide_False by done.
    f_equal. field. done.
Qed.

Lemma ewm_loop_recurrence (alpha : Qc) (rest : list Qc) :
  forall (w : Qc) (k i : nat) (c : Qc),
    rest !! i = Some c ->
    exists p : Qc,
      (Num w :: ewm_loop alpha (mkEwm (Num w) 1 (S k)) (Num <$> rest)) !! i = Some (Num p) /\
      ewm_loop alpha (mkEwm (Num w) 1 (S k)) (Num <$> rest) !! i
      = Some (Num (c * alpha + p * (1 - alpha))).
Proof.
  induction rest as [|c0 rest IH]; intros w k i c Hi; [done|].
  rewrite fmap_cons. cbn [ewm_loop]. rewrite ewm_step_num.
  destruct i as [|j].
  - injection Hi as ->. exists w. split; reflexivity.
  - cbn in Hi. destruct (IH (c0 * alpha + w * (1 - alpha)) (S k) j c Hi) as (p & Hp & Hn).
    exists p. split; [exact Hp|exact Hn].
Qed.

End Ema.



(** ** Rounding to two decimal places *)

Section Rounding.



End Rounding.

(** ** Performance windows *)

Section Performance.

Local Open Scope nat_scope.
Implicit Types (bars : list PriceBar) (df : DataFrame).

Lemma iloc_neg_nums (qs : list Qc) (k : nat) (q : Qc) :
  k <= length qs -> qs !! (length qs - k) = Some q ->
  iloc_neg (Num <$> qs) k = Ok (Num q).
Proof.
  intros Hk Hq. unfold iloc_neg. rewrite length_fmap.
  rewrite decide_True by done. by rewrite list_lookup_fmap, Hq.
Qed.

(** The value of one window on the frame of a series. *)
Lemma perf_value_short bars (days : nat) :
  length bars <= days -> perf_value (frame_of bars) days = Ok (PyStr "N/A").
Proof.
  intros H. unfold perf_value. rewrite len_frame_of.
  by rewrite decide_False by lia.
Qed.

Lemma perf_value_long bars (days : nat) (latest base : Qc) :
  1 <= days -> days < length bars ->
  prices bars !! (length bars - 1) = Some latest ->
  prices bars !! (length bars - days) = Some base ->
  perf_value (frame_of bars) days
  = Ok (PyNum (fround2 (fmul (fdiv (fsub (Num latest) (Num base)) (Num base)) (of_Z 100)))).
Proof.
  intros H1 Hd Hl Hb. unfold perf_value. rewrite len_frame_of.
  rewrite decide_True by done.
  unfold df_getitem. rewrite frame_of_close, closes_prices. cbn [rbind].
  rewrite <- (length_prices bars) in Hl, Hb, Hd.
  rewrite (iloc_neg_nums _ 1 latest) by (done || lia). cbn [rbind].
  rewrite (iloc_neg_nums _ days base) by (done || lia). cbn [rbind].
  reflexivity.
Qed.

Lemma perf_value_total bars (days : nat) :
  1 <= days -> exists v, perf_value (frame_of bars) days = Ok v.
Proof.
  intros H1. destruct (decide (days < length bars)) as [Hd|Hd].
  - destruct (lookup_lt_is_Some_2 (prices bars) (length bars - 1)) as [l Hl];
      [rewrite length_prices; lia|].
    destruct (lookup_lt_is_Some_2 (prices bars) (length bars - days)) as [b Hb];
      [rewrite length_prices; lia|].
    eexists. by apply (perf_value_long bars days l b).
  - eexists. apply perf_value_short. lia.
Qed.

(** The dictionary built by the loop. *)
Lemma performance_entries df (v1 v2 v3 : pyval) :
  perf_value df 21 = Ok v1 -> perf_value df 63 = Ok v2 -> perf_value df 126 = Ok v3 ->
  exists perf : gmap string pyval,
    performance df = Ok perf /\
    perf !! "1 Month"%string = Some v1 /\
    perf !! "3 Month"%string = Some v2 /\
    perf !! "6 Month"%string = Some v3.
Proof.
  intros H1 H2 H3. unfold performance, perf_windows. cbn [foldl fst snd rbind].
  rewrite H1. cbn [rbind]. rewrite H2. cbn [rbind]. rewrite H3. cbn [rbind].
  eexists. split; [reflexivity|].
  repeat split; by simplify_map_eq.
Qed.

Lemma performance_lookup bars (days : nat) (label : string) :
  In (days, label) perf_windows ->
  exists (perf : gmap string pyval) (v : pyval),
    performance (frame_of bars) = Ok perf /\
    perf !! label = Some v /\
    perf_value (frame_of bars) days = Ok v /\
    1 <= days.
Proof.
  intros Hin.
  destruct (perf_value_total bars 21) as [v1 H1]; [lia|].
  destruct (perf_value_total bars 63) as [v2 H2]; [lia|].
  destruct (perf_value_total bars 126) as [v3 H3]; [lia|].
  destruct (performance_entries _ _ _ _ H1 H2 H3) as (perf & Hp & L1 & L2 & L3).
  exists perf.
  destruct Hin as [[= <- <-]|[[= <- <-]|[[= <- <-]|[]]]].
  - exists v1. repeat split; (done || lia).
  - exists v2. repeat split; (done || lia).
  - exists v3. repeat split; (done || lia).
Qed.

Lemma percent_change_finite (latest base : Qc) :
  base <> 0%Qc ->
  fmul (fdiv (fsub (Num latest) (Num base)) (Num base)) (of_Z 100)
  = Num ((latest - base) / base * Qc_of_Z 100)%Qc.
Proof.
  intros Hb. unfold fsub, fneg, fadd, fdiv. rewrite decide_False by done.
  reflexivity.
Qed.

End Performance.



(** The claim of C3 fails: on the 21-bar series 100, 101, ..., 120 the
    "1 Month" entry is not a number at all. *)
Lemma perf_21_bars_no_one_month :
  ~ (exists (perf : gmap string pyval) (v : Qc),
       performance (frame_of bars_linear21) = Ok perf /\
       perf !! "1 Month"%string = Some (PyNum (Num v)) /\
       (Qc_of_Z 20 - 1 / Qc_of_Z 100 <= v)%Qc /\
       (v <= Qc_of_Z 20 + 1 / Qc_of_Z 100)%Qc /\
       perf !! "3 Month"%string = Some (PyStr "N/A") /\
       perf !! "6 Month"%string = Some (PyStr "N/A")).
Proof.
  intros (perf & v & Hp & H1 & _).
  destruct (performance_entries (frame_of bars_linear21)
              (PyStr "N/A") (PyStr "N/A") (PyStr "N/A"))
    as (perf' & Hp' & H1' & _); [reflexivity..|].
  rewrite Hp in Hp'. injection Hp' as <-.
  rewrite H1 in H1'. discriminate.
Qed.

(** C3, amended. On the series of exactly 21 bars whose closes rise
    linearly from 100 to 120 all three labels are unavailable: a window of
    21 days needs strictly more than 21 bars.  With one more bar in front
    of those 21 (22 bars), "1 Month" is exactly 20.0 and "3 Month" and
    "6 Month" are unavailable. *)
Theorem perf_linear_21_bars (b : PriceBar) :
  (exists perf : gmap string pyval,
     performance (frame_of bars_linear21) = Ok perf /\
     perf !! "1 Month"%string = Some (PyStr "N/A") /\
     perf !! "3 Month"%string = Some (PyStr "N/A") /\
     perf !! "6 Month"%string = Some (PyStr "N/A")) /\
  (exists perf : gmap string pyval,
     performance (frame_of (b :: bars_linear21)) = Ok perf /\
     perf !! "1 Month"%string = Some (PyNum (of_Z 20)) /\
     perf !! "3 Month"%string = Some (PyStr "N/A") /\
     perf !! "6 Month"%string = Some (PyStr "N/A")).
Proof.
  split.
  - apply performance_entries; reflexivity.
  - apply performance_entries; [|reflexivity..].
    rewrite (perf_value_long (b :: bars_linear21) 21 (Qc_of_Z 120) (Qc_of_Z 100));
      [|lia|simpl; lia|reflexivity|reflexivity].
    do 2 f_equal. vm_compute. f_equal. apply Qc_is_canon. reflexivity.
Qed.

(** ** RSI-14 *)

Section Rsi.

Local Open Scope Qc_scope.
Implicit Types (qs ds es : list Qc) (i n : nat).

Ltac qc_lra :=
  unfold Qcle, Qclt in *; cbn [this Qcplus Qcopp Qcmult Q2Qc] in *;
  rewrite ?Qred_correct in *; lra.

Lemma qsum_app ds es : qsum (ds ++ es) = qsum ds + qsum es.
Proof.
  induction ds as [|d ds IH].
  - change (qsum []) with 0. by rewrite Qcplus_0_l.
  - change (qsum ((d :: ds) ++ es)) with (d + qsum (ds ++ es)).
    change (qsum (d :: ds)) with (d + qsum ds).
    by rewrite IH, Qcplus_assoc.
Qed.

Lemma qsum_nonneg ds : Forall (fun d => 0 <= d) ds -> 0 <= qsum ds.
Proof.
  induction 1 as [|d ds Hd _ IH]; [done|].
  change (qsum (d :: ds)) with (d + qsum ds). by apply Qcplus_nonneg_nonneg.
Qed.

Lemma qsum_zero ds : Forall (fun d => d = 0) ds -> qsum ds = 0.
Proof.
  induction 1 as [|d ds Hd _ IH]; [done|].
  change (qsum (d :: ds)) with (d + qsum ds). rewrite Hd, IH. apply Qcplus_0_l.
Qed.

Lemma Qcdiv_nonneg (q c : Qc) : 0 <= q -> 0 < c -> 0 <= q / c.
Proof.
  intros Hq Hc. unfold Qcdiv.
  apply Qcmult_nonneg_nonneg; [done|]. apply Qclt_le_weak. by apply Qcinv_pos.
Qed.

Lemma Qcdiv_pos (q c : Qc) : 0 < q -> 0 < c -> 0 < q / c.
Proof.
  intros Hq Hc. unfold Qcdiv. apply Qcmult_pos_pos; [done|]. by apply Qcinv_pos.
Qed.

Lemma Qcinv_le_1 (y : Qc) : 1 <= y -> / y <= 1.
Proof.
  intros Hy.
  assert (Hpos : 0 < y) by (eapply Qclt_le_trans; [|exact Hy]; done).
  apply (Qcmult_le_mono_pos_r _ _ y Hpos).
  rewrite Qcmult_inv_l, Qcmult_1_l; [done|].
  intros ->. by apply (Qclt_not_eq 0 0).
Qed.

Lemma gain_part_nonneg (d : Qc) : 0 <= gain_part d.
Proof.
  unfold gain_part. rewrite Qc_of_Z_0. case_bool_decide as H; [done|].
  by apply Qcle_ngt.
Qed.

Lemma loss_part_nonneg (d : Qc) : 0 <= loss_part d.
Proof.
  unfold loss_part. rewrite Qc_of_Z_0. case_bool_decide as H.
  - replace (- 0) with 0 by ring. done.
  - apply Qcle_ngt in H. qc_lra.
Qed.

Lemma gain_part_rising (d : Qc) : 0 <= d -> gain_part d = d.
Proof.
  intros Hd. unfold gain_part. rewrite Qc_of_Z_0.
  rewrite bool_decide_eq_false_2; [done|]. by apply Qcle_ngt.
Qed.

Lemma loss_part_rising (d : Qc) : 0 <= d -> loss_part d = 0.
Proof.
  intros Hd. unfold loss_part. rewrite Qc_of_Z_0. case_bool_decide as H.
  - ring.
  - apply Qcle_ngt in H. assert (d = 0) as -> by (by apply Qcle_antisym). ring.
Qed.

(** The formula of line 50 on two non-negative averages. *)
Lemma rsi_value_cases (g l : Qc) :
  0 <= g -> 0 <= l ->
  (l = 0 -> g = 0 -> rsi_value (Num g) (Num l) = NaN) /\
  (l = 0 -> 0 < g -> rsi_value (Num g) (Num l) = of_Z 100) /\
  (0 < l ->
   exists q : Qc, rsi_value (Num g) (Num l) = Num q /\ 0 <= q /\ q <= Qc_of_Z 100).
Proof.
  intros Hg Hl. unfold rsi_value. split; [|split].
  - intros -> ->. reflexivity.
  - intros -> Hpos. cbn [fdiv]. rewrite decide_True by done.
    assert (Hs : sign (Num g) = Gt) by (by apply Qgt_alt).
    rewrite Hs. cbn. unfold of_Z. f_equal. ring.
  - intros Hpos.
    assert (Hl0 : l <> 0) by (intros ->; by apply (Qclt_not_eq 0 0)).
    cbn [fdiv]. rewrite decide_False by done.
    unfold of_Z at 3. cbn [fadd].
    set (y := Qc_of_Z 1 + g / l).
    assert (Hy1 : 1 <= y).
    { unfold y. rewrite Qc_of_Z_1.
      pose proof (Qcdiv_nonneg g l Hg Hpos) as Hq.
      set (x := g / l) in *. clearbody x. qc_lra. }
    assert (Hy0 : y <> 0).
    { intros Hy. rewrite Hy in Hy1. by apply Qcle_ngt in Hy1. }
    unfold of_Z. cbn [fdiv]. rewrite decide_False by done.
    cbn [fsub fneg fadd].
    eexists. split; [reflexivity|].
    pose proof (Qcinv_le_1 y Hy1) as Hinv.
    assert (Hinv0 : 0 <= / y).
    { apply Qclt_le_weak, Qcinv_pos. eapply Qclt_le_trans; [|exact Hy1]. done. }
    assert (H100 : 0 <= Qc_of_Z 100) by (rewrite <- Qc_of_Z_0; by apply Z2Qc_inj_le).
    assert (Hlo : 0 <= Qc_of_Z 100 / y) by (by apply Qcmult_nonneg_nonneg).
    assert (Hhi : Qc_of_Z 100 / y <= Qc_of_Z 100).
    { unfold Qcdiv. rewrite <- (Qcmult_1_r (Qc_of_Z 100)) at 2.
      by apply Qcmult_le_mono_nonneg_l. }
    set (z := Qc_of_Z 100 / y) in *. clearbody z.
    set (h := Qc_of_Z 100) in *. clearbody h.
    split; qc_lra.
Qed.

End Rsi.

Section RsiSeries.

Local Open Scope nat_scope.
Implicit Types (qs ds es : list Qc) (i n : nat).

Lemma zip_with_fsub_nums qs ds :
  zip_with fsub (Num <$> qs) (Num <$> ds) = Num <$> zip_with Qcminus qs ds.
Proof.
  revert ds. induction qs as [|q qs IH]; intros [|d ds]; try done.
  rewrite !fmap_cons. cbn [zip_with]. rewrite fmap_cons. by rewrite IH.
Qed.

Lemma diff_nums qs :
  qs <> [] -> diff (Num <$> qs) = NaN :: (Num <$> changes qs).
Proof.
  destruct qs as [|q rest]; [done|]. intros _.
  unfold changes. cbn [tail]. rewrite fmap_cons. cbn [diff].
  by rewrite <- fmap_cons, zip_with_fsub_nums.
Qed.

Lemma length_changes qs : length (changes qs) = length qs - 1.
Proof.
  unfold changes. rewrite length_zip_with.
  destruct qs as [|q rest]; simpl; lia.
Qed.

Lemma lookup_changes qs i (a b : Qc) :
  qs !! i = Some a -> qs !! S i = Some b -> changes qs !! i = Some (b - a)%Qc.
Proof.
  intros Ha Hb. unfold changes. rewrite lookup_zip_with.
  destruct qs as [|q rest]; [done|]. cbn [tail].
  change (rest !! i = Some b) in Hb. by rewrite Hb, Ha.
Qed.

Lemma gains_after_nan ds :
  mask (fun d => flt d (of_Z 0)) (of_Z 0) (NaN :: (Num <$> ds))
  = NaN :: (Num <$> (gain_part <$> ds)).
Proof.
  unfold mask. rewrite fmap_cons. cbn [flt]. f_equal.
  rewrite <- !list_fmap_compose. apply list_fmap_ext. intros _ d _.
  unfold compose, gain_part, of_Z. cbn [flt]. by case_bool_decide.
Qed.

Lemma losses_after_nan ds :
  fneg <$> mask (fun d => fgt d (of_Z 0)) (of_Z 0) (NaN :: (Num <$> ds))
  = NaN :: (Num <$> (loss_part <$> ds)).
Proof.
  unfold mask. rewrite !fmap_cons. cbn [fgt flt fneg]. f_equal.
  rewrite <- !list_fmap_compose. apply list_fmap_ext. intros _ d _.
  unfold compose, loss_part, of_Z, fgt. cbn [flt]. by case_bool_decide.
Qed.

(** Rolling mean of a series that starts with one NaN. *)
Lemma rolling_after_nan n es i :
  0 < n -> n <= i -> i <= length es ->
  rolling_mean n (NaN :: (Num <$> es)) !! i
  = Some (Num (qsum (drop (i - n) (take i es)) / Qc_of_Z (Z.of_nat n))%Qc).
Proof.
  intros Hn Hi Hlen.
  rewrite lookup_rolling_mean by (simpl; rewrite length_fmap; lia).
  rewrite window_after_nan by done.
  assert (Hw : length (drop (i - n) (take i es)) = n)
    by (rewrite length_drop, length_take; lia).
  rewrite window_mean_nums by lia. by rewrite Hw.
Qed.

Lemma rolling_after_nan_early n es i :
  i < n -> i <= length es ->
  rolling_mean n (NaN :: (Num <$> es)) !! i = Some NaN.
Proof.
  intros Hi Hlen.
  rewrite lookup_rolling_mean by (simpl; rewrite length_fmap; lia).
  by rewrite window_mean_reaching_nan.
Qed.

(** The sum of the changes over a stretch is the rise over the stretch. *)
Lemma qsum_changes qs lo n :
  lo + n < length qs ->
  qsum (drop lo (take (lo + n) (changes qs)))
  = (nth (lo + n) qs 0 - nth lo qs 0)%Qc.
Proof.
  induction n as [|n IH]; intros Hlen.
  - rewrite Nat.add_0_r.
    rewrite drop_ge by (rewrite length_take; lia).
    change (qsum []) with 0%Qc. ring.
  - destruct (lookup_lt_is_Some_2 qs (lo + n)) as [a Ha]; [lia|].
    destruct (lookup_lt_is_Some_2 qs (S (lo + n))) as [b Hb]; [lia|].
    pose proof (lookup_changes qs (lo + n) a b Ha Hb) as Hc.
    replace (lo + S n) with (S (lo + n)) by lia.
    rewrite (take_S_r _ _ _ Hc).
    rewrite drop_app_le by (rewrite length_take, length_changes; lia).
    rewrite qsum_app, IH by lia.
    rewrite (nth_lookup_Some _ _ _ _ Ha), (nth_lookup_Some _ _ _ _ Hb).
    change (qsum [(b - a)%Qc]) with ((b - a) + 0)%Qc. ring.
Qed.

Lemma changes_nonneg qs :
  nondecreasing qs -> Forall (fun d => (0 <= d)%Qc) (changes qs).
Proof.
  intros Hmono. apply Forall_lookup. intros i d Hd.
  assert (Hi : S i < length qs).
  { apply lookup_lt_Some in Hd. rewrite length_changes in Hd. lia. }
  destruct (lookup_lt_is_Some_2 qs i) as [a Ha]; [lia|].
  destruct (lookup_lt_is_Some_2 qs (S i)) as [b Hb]; [lia|].
  rewrite (lookup_changes qs i a b Ha Hb) in Hd. injection Hd as <-.
  pose proof (Hmono i a b Ha Hb) as Hab.
  unfold Qcle in *. cbn [this Qcminus Qcplus Qcopp Q2Qc] in *.
  rewrite ?Qred_correct. lra.
Qed.

End RsiSeries.

Section RsiColumn.

Local Open Scope nat_scope.
Implicit Types (qs : list Qc) (i : nat).

(** The two averages and the RSI at one position of a close series. *)
Lemma avg_gain_lookup qs i :
  14 <= i -> i < length qs ->
  avg_gain (diff (Num <$> qs)) !! i
  = Some (Num (qsum (drop (i - 14) (take i (gain_part <$> changes qs)))
               / Qc_of_Z (Z.of_nat 14))%Qc).
Proof.
  intros H14 Hi. rewrite diff_nums by (intros ->; simpl in Hi; lia).
  unfold avg_gain. rewrite gains_after_nan.
  apply rolling_after_nan; [lia|done|].
  rewrite length_fmap, length_changes. lia.
Qed.

Lemma avg_loss_lookup qs i :
  14 <= i -> i < length qs ->
  avg_loss (diff (Num <$> qs)) !! i
  = Some (Num (qsum (drop (i - 14) (take i (loss_part <$> changes qs)))
               / Qc_of_Z (Z.of_nat 14))%Qc).
Proof.
  intros H14 Hi. rewrite diff_nums by (intros ->; simpl in Hi; lia).
  unfold avg_loss. rewrite losses_after_nan.
  apply rolling_after_nan; [lia|done|].
  rewrite length_fmap, length_changes. lia.
Qed.

Lemma rsi14_lookup_early qs i :
  i < 14 -> i < length qs -> rsi14 (Num <$> qs) !! i = Some NaN.
Proof.
  intros H14 Hi. unfold rsi14, rsi_of_rs.
  rewrite diff_nums by (intros ->; simpl in Hi; lia).
  unfold avg_gain, avg_loss. rewrite gains_after_nan, losses_after_nan.
  rewrite list_lookup_fmap, lookup_zip_with.
  rewrite !rolling_after_nan_early by (rewrite ?length_fmap, ?length_changes; lia).
  reflexivity.
Qed.

Lemma rsi14_lookup qs i (g l : fval) :
  avg_gain (diff (Num <$> qs)) !! i = Some g ->
  avg_loss (diff (Num <$> qs)) !! i = Some l ->
  rsi14 (Num <$> qs) !! i = Some (rsi_value g l).
Proof.
  intros Hg Hl. unfold rsi14, rsi_of_rs.
  rewrite list_lookup_fmap, lookup_zip_with, Hg, Hl. reflexivity.
Qed.

Lemma window_parts_nonneg (f : Qc -> Qc) (ds : list Qc) (lo hi : nat) :
  (forall d, (0 <= f d)%Qc) ->
  (0 <= qsum (drop lo (take hi (f <$> ds))) / Qc_of_Z (Z.of_nat 14))%Qc.
Proof.
  intros Hf. apply Qcdiv_nonneg; [|apply Qc_of_nat_pos; lia].
  apply qsum_nonneg, Forall_drop, Forall_take, Forall_fmap, Forall_forall.
  intros d _. apply Hf.
Qed.

Lemma prices_series (cs : list Z) : prices (series_of_closes cs) = Qc_of_Z <$> cs.
Proof.
  unfold prices, series_of_closes. rewrite fmap_imap.
  rewrite <- (imap_const Qc_of_Z). by apply imap_ext.
Qed.

Lemma nondecreasing_linear (first : Z) (n : nat) :
  nondecreasing (prices (series_of_closes (linear_closes first n))).
Proof.
  rewrite prices_series. unfold linear_closes. intros i a b Ha Hb.
  rewrite !list_lookup_fmap in Ha, Hb.
  destruct (decide (S i < n)) as [Hi|Hi].
  - rewrite lookup_seq_lt in Ha, Hb by lia.
    cbn [fmap option_fmap option_map] in Ha, Hb.
    injection Ha as <-. injection Hb as <-. apply Qclt_le_weak, Qc_of_Z_lt. lia.
  - rewrite (lookup_seq_ge _ _ (S i)) in Hb by lia. done.
Qed.

Lemma nondecreasing_constant (c : Z) (n : nat) :
  nondecreasing (prices (series_of_closes (constant_closes c n))).
Proof.
  rewrite prices_series. unfold constant_closes. intros i a b Ha Hb.
  rewrite fmap_replicate in Ha, Hb.
  apply lookup_replicate_1 in Ha as [-> _]. apply lookup_replicate_1 in Hb as [-> _].
  apply Qcle_refl.
Qed.

End RsiColumn.

(** The claim of C7 fails on the series of 15 bars that all close at 100:
    it never falls, and its RSI-14 at the last bar is NaN, not 100. *)
Lemma rsi_flat_series_not_100 :
  ~ (nondecreasing (prices bars_flat15) ->
     (15 <= length bars_flat15)%nat ->
     column "RSI" (snd (buying_recommendation (frame_of bars_flat15))) !! 14%nat
     = Some (of_Z 100)).
Proof.
  intros H.
  specialize (H (nondecreasing_constant 100 15) ltac:(vm_compute; lia)).
  vm_compute in H. discriminate.
Qed.

(** C7, amended. After the call, every value of the RSI column is NaN or a
    number in [0,100]; it is NaN at the first 14 positions.  On a close
    series that never falls, at every position i >= 14 the loss average is
    zero, and RSI-14 is exactly 100 when the close has risen over the last
    14 changes (the quotient is +inf) and NaN when it has not moved (the
    quotient is 0/0); no error is raised in either case. *)
Theorem rsi14_range_and_saturation (bars : list PriceBar) (i : nat) (x : fval) :
  column "RSI" (snd (buying_recommendation (frame_of bars))) !! i = Some x ->
  (x = NaN \/ exists q : Qc, x = Num q /\ (0 <= q)%Qc /\ (q <= Qc_of_Z 100)%Qc) /\
  ((i < 14)%nat -> x = NaN) /\
  (nondecreasing (prices bars) -> (14 <= i)%nat ->
   avg_loss (diff (closes bars)) !! i = Some (Num 0%Qc) /\
   forall a b : Qc,
     prices bars !! (i - 14)%nat = Some a -> prices bars !! i = Some b ->
     ((a < b)%Qc -> x = of_Z 100) /\ (a = b -> x = NaN)).
Proof.
  intros Hx.
  rewrite column_after_call in Hx.
  destruct (with_indicators_columns (frame_of bars) (closes bars)) as (_ & _ & Hr & _).
  rewrite Hr in Hx. change (rsi14 (closes bars) !! i = Some x) in Hx. clear Hr.
  rewrite closes_prices in *.
  assert (Hi : (i < length (prices bars))%nat).
  { apply lookup_lt_Some in Hx. by rewrite length_rsi14, length_fmap in Hx. }
  destruct (decide (14 <= i)%nat) as [H14|H14].
  - pose proof (avg_gain_lookup _ _ H14 Hi) as Hg.
    pose proof (avg_loss_lookup _ _ H14 Hi) as Hl.
    rewrite (rsi14_lookup _ _ _ _ Hg Hl) in Hx. injection Hx as <-.
    set (g := (qsum (drop (i - 14) (take i (gain_part <$> changes (prices bars))))
               / Qc_of_Z (Z.of_nat 14))%Qc) in *.
    set (l := (qsum (drop (i - 14) (take i (loss_part <$> changes (prices bars))))
               / Qc_of_Z (Z.of_nat 14))%Qc) in *.
    assert (Hg0 : (0 <= g)%Qc) by apply (window_parts_nonneg gain_part), gain_part_nonneg.
    assert (Hl0 : (0 <= l)%Qc) by apply (window_parts_nonneg loss_part), loss_part_nonneg.
    destruct (rsi_value_cases g l Hg0 Hl0) as (Hnan & Hsat & Hnum).
    split; [|split; [lia|]].
    + destruct (Qcle_lt_or_eq _ _ Hl0) as [Hlpos| <-].
      * right. destruct (Hnum Hlpos) as (q & -> & ?). by exists q.
      * destruct (Qcle_lt_or_eq _ _ Hg0) as [Hgpos| <-].
        -- right. rewrite (Hsat eq_refl Hgpos). exists (Qc_of_Z 100).
           split; [done|]. split; [|apply Qcle_refl].
           rewrite <- Qc_of_Z_0. by apply Z2Qc_inj_le.
        -- left. by apply Hnan.
    + intros Hmono _.
      pose proof (changes_nonneg _ Hmono) as Hch.
      assert (Hgains : gain_part <$> changes (prices bars) = changes (prices bars)).
      { rewrite <- (list_fmap_id (changes (prices bars))) at 2.
        apply list_fmap_ext. intros j d Hd. apply gain_part_rising.
        by apply (Forall_lookup_1 _ _ _ _ Hch Hd). }
      assert (Hlz : l = 0%Qc).
      { unfold l. rewrite qsum_zero; [apply Qcmult_0_l|].
        apply Forall_drop, Forall_take, Forall_fmap.
        eapply Forall_impl; [exact Hch|]. intros d Hd. by apply loss_part_rising. }
      split; [by rewrite Hl, Hlz|].
      intros a b Ha Hb.
      assert (Hsum : g = ((b - a) / Qc_of_Z (Z.of_nat 14))%Qc).
      { unfold g. rewrite Hgains.
        pose proof (qsum_changes (prices bars) (i - 14) 14) as Hq.
        replace ((i - 14) + 14)%nat with i in Hq by lia.
        rewrite Hq by lia.
        by rewrite (nth_lookup_Some _ _ _ _ Ha), (nth_lookup_Some _ _ _ _ Hb). }
      split.
      * intros Hab. apply Hsat; [done|]. rewrite Hsum.
        apply Qcdiv_pos; [|apply Qc_of_nat_pos; lia].
        unfold Qclt in *. cbn [this Qcminus Qcplus Qcopp Q2Qc] in *.
        rewrite ?Qred_correct. lra.
      * intros ->. apply Hnan; [done|]. rewrite Hsum.
        replace (b - b)%Qc with 0%Qc by ring. apply Qcmult_0_l.
  - rewrite rsi14_lookup_early in Hx by lia. injection Hx as <-.
    split; [by left|]. split; [done|]. intros _ ?. lia.
Qed.

Lemma rsi14_range_and_saturation_witness :
  default NaN (column "RSI" (snd (buying_recommendation (frame_of bars_linear21))) !! 20%nat)
  = of_Z 100.
Proof.
  destruct (column "RSI" (snd (buying_recommendation (frame_of bars_linear21))) !! 20%nat)
    as [x|] eqn:Hx; [|vm_compute in Hx; discriminate].
  destruct (rsi14_range_and_saturation bars_linear21 20 x Hx) as (_ & _ & Hmono).
  destruct Hmono as [_ Hsat]; [apply nondecreasing_linear|lia|].
  apply (Hsat (Qc_of_Z 106) (Qc_of_Z 120)); [reflexivity|reflexivity|].
  apply Qc_of_Z_lt. lia.
Defined.

(** ** Worked examples *)

(** Twenty-one bars rising from 100 to 120: the close is above both
    averages and RSI-14 is saturated, so the score is 40 + 40 + 0. *)
Example score_linear21 : fst (buying_recommendation (frame_of bars_linear21)) = 80.
Proof. vm_compute. reflexivity. Qed.

(** No bars at all: [iloc[-1]] raises and the sentinel is returned. *)
Example score_empty : fst (buying_recommendation (frame_of [])) = 50.
Proof. reflexivity. Qed.

(** A flat series: no comparison holds, RSI-14 is NaN, the score is 0. *)
Example score_flat15 : fst (buying_recommendation (frame_of bars_flat15)) = 0.
Proof. vm_compute. reflexivity. Qed.

(** currentPrice 110 and previousClose 100 give a momentum of 10.0. *)
Example momentum_ten_percent :
  momentum {[ "currentPrice"%string := PyNum (of_Z 110);
              "previousClose"%string := PyNum (of_Z 100) ]}
  = Ok (of_Z 10).
Proof. vm_compute. do 2 f_equal. apply Qc_is_canon. reflexivity. Qed.

(** With previousClose missing the default makes the momentum 0.0. *)
Example momentum_default_previous :
  momentum {[ "currentPrice"%string := PyNum (of_Z 110) ]} = Ok (of_Z 0).
Proof. vm_compute. do 2 f_equal. apply Qc_is_canon. reflexivity. Qed.

Example pe_rating_18 : pe_rating (PyNum (of_Z 18)) = Ok "Excellent"%string.
Proof. reflexivity. Qed.

(** * Further properties of the engine *)

(** ** When the sentinel is returned *)

Section Sentinel.

Local Open Scope nat_scope.
Implicit Types (df : DataFrame) (cl : list fval).

Lemma computed_score_not_50 (a b c : bool) :
  Z.min (0 + (if a then 40 else 0) + (if b then 40 else 0) + (if c then 20 else 0)) 100
  <> 50%Z.
Proof. destruct a, b, c; simpl; lia. Qed.

Lemma with_indicators_lengths df cl (c : string) (col : list fval) :
  columns df !! "Close"%string = Some cl ->
  columns (with_indicators df cl) !! c = Some col ->
  (c = "SMA20"%string \/ c = "EMA20"%string \/ c = "RSI"%string \/ c = "Close"%string) ->
  length col = length cl.
Proof.
  intros Hcl Hcol Hc.
  destruct (with_indicators_columns df cl) as (Hs & He & Hr & Ho).
  destruct Hc as [-> | [-> | [-> | ->]]].
  - rewrite Hs in Hcol. injection Hcol as <-. apply length_rolling_mean.
  - rewrite He in Hcol. injection Hcol as <-. apply length_ewm_mean.
  - rewrite Hr in Hcol. injection Hcol as <-. apply length_rsi14.
  - rewrite Ho, Hcl in Hcol by done. injection Hcol as <-. done.
Qed.

(** The last row has a value for each of the four columns exactly when the
    frame has rows and the Close column reaches the last one. *)
Lemma score_of_latest_total df cl :
  columns df !! "Close"%string = Some cl ->
  1 <= len df -> len df <= length cl ->
  exists score : Z, score_of_latest (with_indicators df cl) = Ok score.
Proof.
  intros Hcl H1 Hlen.
  destruct (df_iloc_last_lookup (with_indicators df cl)) as (row & Hrow & Hget);
    [by rewrite len_with_indicators|].
  destruct (with_indicators_columns df cl) as (Hs & He & Hr & Ho).
  rewrite len_with_indicators in Hget.
  destruct (lookup_lt_is_Some_2 cl (len df - 1)) as [c Hc]; [lia|].
  destruct (lookup_lt_is_Some_2 (rolling_mean 20 cl) (len df - 1)) as [sma Hsma];
    [rewrite length_rolling_mean; lia|].
  destruct (lookup_lt_is_Some_2 (ewm_mean 20 cl) (len df - 1)) as [ema Hema];
    [rewrite length_ewm_mean; lia|].
  destruct (lookup_lt_is_Some_2 (rsi14 cl) (len df - 1)) as [rsi Hrsi];
    [rewrite length_rsi14; lia|].
  assert (Hrc : row !! "Close"%string = Some c).
  { rewrite Hget, Ho by done. rewrite Hcl. exact Hc. }
  assert (Hrs : row !! "SMA20"%string = Some sma) by (rewrite Hget, Hs; exact Hsma).
  assert (Hre : row !! "EMA20"%string = Some ema) by (rewrite Hget, He; exact Hema).
  assert (Hrr : row !! "RSI"%string = Some rsi) by (rewrite Hget, Hr; exact Hrsi).
  unfold score_of_latest. rewrite Hrow. cbn [rbind].
  rewrite (row_getitem_Some _ _ _ Hrc), (row_getitem_Some _ _ _ Hrs),
    (row_getitem_Some _ _ _ Hre), (row_getitem_Some _ _ _ Hrr).
  cbn [rbind]. eexists. reflexivity.
Qed.

Lemma score_of_latest_needs_rows df cl (score : Z) :
  columns df !! "Close"%string = Some cl ->
  score_of_latest (with_indicators df cl) = Ok score ->
  1 <= len df /\ len df <= length cl.
Proof.
  intros Hcl Hscore.
  destruct (score_of_latest_Ok _ _ Hscore)
    as (latest & c & sma & ema & rsi & Hl & Hc & _).
  unfold df_iloc_last in Hl. rewrite len_with_indicators in Hl.
  destruct (decide (1 <= len df)) as [H1|]; [|done].
  injection Hl as <-. rewrite lookup_omap in Hc.
  destruct (with_indicators_columns df cl) as (_ & _ & _ & Ho).
  rewrite Ho, Hcl in Hc by done. cbn in Hc.
  apply lookup_lt_Some in Hc. lia.
Qed.

End Sentinel.

(** X1. The scoring operation returns 50 exactly when its body raised, and
    the body raises exactly when the frame has no Close column, has no rows,
    or has more rows than the Close column has values; a computed score is
    never 50.  On the frame of a price series this means: 50 if and only if
    the series is empty. *)
Theorem sentinel_iff_exception :
  (forall df : DataFrame,
     (fst (buying_recommendation df) = 50 <->
      exists e : exn, fst (recommendation_body df) = Raise e) /\
     ((exists e : exn, fst (recommendation_body df) = Raise e) <->
      columns df !! "Close"%string = None \/
      len df = 0%nat \/
      exists cl : list fval,
        columns df !! "Close"%string = Some cl /\ (length cl < len df)%nat)) /\
  (forall bars : list PriceBar,
     fst (buying_recommendation (frame_of bars)) = 50 <-> bars = []).
Proof.
  assert (Hgen : forall df : DataFrame,
     (fst (buying_recommendation df) = 50 <->
      exists e : exn, fst (recommendation_body df) = Raise e) /\
     ((exists e : exn, fst (recommendation_body df) = Raise e) <->
      columns df !! "Close"%string = None \/
      len df = 0%nat \/
      exists cl : list fval,
        columns df !! "Close"%string = Some cl /\ (length cl < len df)%nat)).
  { intros df. unfold buying_recommendation.
    destruct (columns df !! "Close"%string) as [cl|] eqn:Hcl.
    - rewrite (recommendation_body_close _ _ Hcl). cbn [fst].
      destruct (score_of_latest (with_indicators df cl)) as [score|e] eqn:Hscore.
      + destruct (score_of_latest_needs_rows _ _ _ Hcl Hscore) as [H1 Hlen].
        destruct (score_of_latest_Ok _ _ Hscore)
          as (_ & c & sma & ema & rsi & _ & _ & _ & _ & _ & ->).
        split; (split; [|intros H]).
        * intros H50. by apply computed_score_not_50 in H50.
        * by destruct H.
        * intros [e [=]].
        * destruct H as [[=]|[H0|(cl' & [= <-] & Hlt)]]; lia.
      + split; (split; [|intros H]); cbn [fst]; [by eauto|done|intros _|by eauto].
        destruct (decide (1 <= len df)%nat) as [H1|H1]; [|right; left; lia].
        destruct (decide (len df <= length cl)%nat) as [H2|H2].
        * destruct (score_of_latest_total _ _ Hcl H1 H2) as [s Hs]. congruence.
        * right. right. exists cl. split; [done|lia].
    - rewrite (recommendation_body_no_close _ Hcl). cbn [fst].
      split; (split; [|intros H]); [by eauto|done|by left|by eauto]. }
  split; [exact Hgen|].
  intros bars. destruct (Hgen (frame_of bars)) as [H50 Hraise].
  rewrite H50, Hraise, frame_of_close, len_frame_of. split.
  - intros [[=]|[H0|(cl & [= <-] & Hlt)]].
    + by apply length_zero_iff_nil.
    + rewrite length_closes in Hlt. lia.
  - intros ->. right. by left.
Qed.

(** ** Calling twice, and calling before or after [performance] *)

Section Composition.

Implicit Types (df : DataFrame) (cl : list fval).

Lemma with_indicators_twice df cl :
  with_indicators (with_indicators df cl) cl = with_indicators df cl.
Proof.
  unfold with_indicators, df_setitem. cbn [index columns]. f_equal.
  apply map_eq. intros c.
  destruct (decide (c = "RSI"%string)) as [->|H1]; [by rewrite !lookup_insert_eq|].
  rewrite (lookup_insert_ne _ "RSI"%string c) by done.
  destruct (decide (c = "EMA20"%string)) as [->|H2].
  { rewrite lookup_insert_eq. rewrite lookup_insert_ne by done.
    by rewrite lookup_insert_eq. }
  rewrite (lookup_insert_ne _ "EMA20"%string c) by done.
  destruct (decide (c = "SMA20"%string)) as [->|H3].
  { rewrite lookup_insert_eq. rewrite !lookup_insert_ne by done.
    by rewrite lookup_insert_eq. }
  by rewrite !lookup_insert_ne by done.
Qed.

Lemma frame_after_call df :
  snd (buying_recommendation df)
  = match columns df !! "Close"%string with
    | Some cl => with_indicators df cl
    | None => df
    end.
Proof.
  unfold buying_recommendation.
  destruct (columns df !! "Close"%string) as [cl|] eqn:Hcl.
  - rewrite (recommendation_body_close _ _ Hcl). by destruct (score_of_latest _).
  - by rewrite (recommendation_body_no_close _ Hcl).
Qed.

Lemma with_indicators_close df cl :
  columns (with_indicators df cl) !! "Close"%string = columns df !! "Close"%string.
Proof. by apply with_indicators_columns. Qed.

Lemma perf_value_after_call df (days : nat) :
  perf_value (snd (buying_recommendation df)) days = perf_value df days.
Proof.
  rewrite frame_after_call.
  destruct (columns df !! "Close"%string) as [cl|] eqn:Hcl; [|done].
  unfold perf_value, df_getitem.
  by rewrite len_with_indicators, with_indicators_close.
Qed.

End Composition.

(** X2. The scoring operation is idempotent: a second call on the frame
    the first call left behind returns the same score and leaves the same
    frame. *)
Theorem buying_recommendation_idempotent (df : DataFrame) :
  buying_recommendation (snd (buying_recommendation df)) = buying_recommendation df.
Proof.
  rewrite frame_after_call.
  destruct (columns df !! "Close"%string) as [cl|] eqn:Hcl; [|done].
  unfold buying_recommendation at 2.
  rewrite (recommendation_body_close _ _ Hcl).
  unfold buying_recommendation.
  assert (Hcl' : columns (with_indicators df cl) !! "Close"%string = Some cl)
    by (by rewrite with_indicators_close).
  rewrite (recommendation_body_close _ _ Hcl'), with_indicators_twice.
  reflexivity.
Qed.

(** X3. The performance summary does not depend on whether the scoring
    operation has already run on the frame: the columns the scoring
    operation assigns are not read by [performance]. *)
Theorem performance_after_scoring (df : DataFrame) :
  performance (snd (buying_recommendation df)) = performance df.
Proof.
  unfold performance, perf_windows. cbn [foldl fst snd].
  by rewrite !perf_value_after_call.
Qed.

(** ** More on the performance summary *)

Section PerformanceMore.

Local Open Scope nat_scope.
Implicit Types (bars : list PriceBar) (df : DataFrame).

Lemma performance_map df (v1 v2 v3 : pyval) :
  perf_value df 21 = Ok v1 -> perf_value df 63 = Ok v2 -> perf_value df 126 = Ok v3 ->
  performance df
  = Ok (<["6 Month"%string := v3]>
        (<["3 Month"%string := v2]> (<["1 Month"%string := v1]> ∅))).
Proof.
  intros H1 H2 H3. unfold performance, perf_windows. cbn [foldl fst snd rbind].
  rewrite H1. cbn [rbind]. rewrite H2. cbn [rbind]. rewrite H3. reflexivity.
Qed.

Lemma perf_value_cases bars (days : nat) :
  1 <= days ->
  (days < length bars /\ exists x : fval, perf_value (frame_of bars) days = Ok (PyNum x)) \/
  (length bars <= days /\ perf_value (frame_of bars) days = Ok (PyStr "N/A")).
Proof.
  intros H1. destruct (decide (days < length bars)) as [Hd|Hd].
  - left. split; [done|].
    destruct (lookup_lt_is_Some_2 (prices bars) (length bars - 1)) as [l Hl];
      [rewrite length_prices; lia|].
    destruct (lookup_lt_is_Some_2 (prices bars) (length bars - days)) as [b Hb];
      [rewrite length_prices; lia|].
    eexists. by apply (perf_value_long bars days l b).
  - right. split; [lia|]. apply perf_value_short. lia.
Qed.

Lemma percent_change_zero_base (latest : Qc) :
  fround2 (fmul (fdiv (fsub (Num latest) (Num 0%Qc)) (Num 0%Qc)) (of_Z 100))
  = if decide (0 < latest)%Qc then PInf
    else if decide (latest < 0)%Qc then NInf else NaN.
Proof.
  unfold fsub. cbn [fneg fadd fdiv]. rewrite decide_True by done.
  replace (latest + - 0)%Qc with latest by ring.
  unfold sign.
  destruct (decide (0 < latest)%Qc) as [Hpos|Hnpos].
  - assert (Hs : (latest ?= 0)%Qc = Gt) by (by apply Qgt_alt). by rewrite Hs.
  - destruct (decide (latest < 0)%Qc) as [Hneg|Hnneg].
    + assert (Hs : (latest ?= 0)%Qc = Lt) by (by apply Qlt_alt). by rewrite Hs.
    + assert (Hz : latest = 0%Qc).
      { apply Qcle_antisym; by apply Qcle_ngt. }
      by rewrite Hz.
Qed.

Lemma frame_of_rectangular bars : rectangular (frame_of bars).
Proof.
  intros c col Hcol. rewrite len_frame_of.
  unfold frame_of in Hcol. cbn [columns] in Hcol.
  repeat (apply lookup_insert_Some in Hcol as [[_ <-]|[_ Hcol]];
          [by rewrite ?length_closes, ?length_fmap|]).
  by rewrite lookup_empty in Hcol.
Qed.

End PerformanceMore.

(** X4. On the frame of every price series the performance summary is
    produced without an error, its keys are exactly the three labels, every
    entry is a number or the marker "N/A", and availability is nested: when
    "6 Month" is a number so is "3 Month", and when "3 Month" is a number so
    is "1 Month". *)
Theorem performance_labels_nested (bars : list PriceBar) :
  exists perf : gmap string pyval,
    performance (frame_of bars) = Ok perf /\
    dom perf = perf_labels /\
    (forall label : string, label ∈ perf_labels ->
       is_number (perf !! label) \/ perf !! label = Some (PyStr "N/A")) /\
    (is_number (perf !! "6 Month"%string) -> is_number (perf !! "3 Month"%string)) /\
    (is_number (perf !! "3 Month"%string) -> is_number (perf !! "1 Month"%string)).
Proof.
  destruct (perf_value_cases bars 21) as [[L1 [x1 H1]]|[L1 H1]]; [lia| |];
  destruct (perf_value_cases bars 63) as [[L2 [x2 H2]]|[L2 H2]]; try lia;
  destruct (perf_value_cases bars 126) as [[L3 [x3 H3]]|[L3 H3]]; try lia;
  rewrite (performance_map _ _ _ _ H1 H2 H3);
  (eexists; split; [reflexivity|]);
  (split; [unfold perf_labels; rewrite !dom_insert_L, dom_empty_L; set_solver|]);
  (split; [intros label Hl; unfold perf_labels in Hl;
           apply elem_of_union in Hl as [Hl|Hl];
           [apply elem_of_union in Hl as [Hl|Hl]|];
           apply elem_of_singleton in Hl; subst label;
           simplify_map_eq; unfold is_number; eauto|]);
  unfold is_number; simplify_map_eq;
  (split; [intros [x Hx]; try discriminate; eauto|intros [x Hx]; try discriminate; eauto]).
Qed.

(** X5. A zero close at the start of a window raises nothing: the entry of
    the label is +inf, -inf or NaN according to whether the latest close is
    above, below or equal to zero. *)
Theorem performance_zero_base
    (bars : list PriceBar) (days : nat) (label : string) (latest : Qc) :
  In (days, label) perf_windows ->
  (days < length bars)%nat ->
  prices bars !! (length bars - days)%nat = Some 0%Qc ->
  prices bars !! (length bars - 1)%nat = Some latest ->
  exists perf : gmap string pyval,
    performance (frame_of bars) = Ok perf /\
    perf !! label
    = Some (PyNum (if decide (0 < latest)%Qc then PInf
                   else if decide (latest < 0)%Qc then NInf else NaN)).
Proof.
  intros Hin Hd Hbase Hlast.
  destruct (performance_lookup bars days label Hin) as (perf & v & Hp & Hl & Hv & H1).
  exists perf. split; [exact Hp|].
  rewrite (perf_value_long bars days latest 0%Qc H1 Hd Hlast Hbase) in Hv.
  rewrite Hl. f_equal. rewrite <- percent_change_zero_base. congruence.
Qed.

Lemma performance_zero_base_witness :
  exists perf : gmap string pyval,
    performance (frame_of bars_zero_base) = Ok perf /\
    perf !! "1 Month"%string = Some (PyNum PInf).
Proof.
  destruct (performance_zero_base bars_zero_base 21 "1 Month" (Qc_of_Z 20))
    as (perf & Hp & Hl).
  - simpl. tauto.
  - vm_compute. lia.
  - vm_compute. f_equal. apply Qc_is_canon. reflexivity.
  - reflexivity.
  - exists perf. split; [exact Hp|]. rewrite Hl. reflexivity.
Defined.

(** X6. On a frame without a Close column the performance summary is
    still produced when the frame has at most 21 rows (all three entries are
    "N/A" and the column is never read), and the call raises KeyError when
    the frame has more than 21 rows. *)
Theorem performance_without_close (df : DataFrame) :
  columns df !! "Close"%string = None ->
  ((len df <= 21)%nat ->
   performance df
   = Ok (<["6 Month"%string := PyStr "N/A"]>
         (<["3 Month"%string := PyStr "N/A"]>
          (<["1 Month"%string := PyStr "N/A"]> ∅)))) /\
  ((21 < len df)%nat -> performance df = Raise KeyError).
Proof.
  intros Hcl. split; intros Hlen.
  - apply performance_map; unfold perf_value; by rewrite decide_False by lia.
  - unfold performance, perf_windows. cbn [foldl fst snd rbind].
    unfold perf_value at 1. rewrite decide_True by done.
    unfold df_getitem. rewrite Hcl. reflexivity.
Qed.

Lemma performance_without_close_witness :
  performance (mkDataFrame [1; 2; 3]%Z ∅)
  = Ok (<["6 Month"%string := PyStr "N/A"]>
        (<["3 Month"%string := PyStr "N/A"]>
         (<["1 Month"%string := PyStr "N/A"]> ∅))).
Proof.
  apply (performance_without_close (mkDataFrame [1; 2; 3]%Z ∅)); [reflexivity|].
  vm_compute. lia.
Defined.

(** X7. The scoring operation keeps a frame rectangular: when every column
    of the frame has one value per row, so has every column of the frame
    the call leaves behind, the three indicator columns included. *)
Theorem scoring_keeps_rectangular (df : DataFrame) :
  rectangular df -> rectangular (snd (buying_recommendation df)).
Proof.
  intros Hrect. rewrite frame_after_call.
  destruct (columns df !! "Close"%string) as [cl|] eqn:Hcl; [|done].
  intros c col Hcol. rewrite len_with_indicators.
  pose proof (Hrect _ _ Hcl) as Hlen.
  destruct (decide (c = "SMA20"%string \/ c = "EMA20"%string \/ c = "RSI"%string))
    as [Hc|Hc].
  - rewrite <- Hlen. apply (with_indicators_lengths df cl c col Hcl Hcol). tauto.
  - destruct (with_indicators_columns df cl) as (_ & _ & _ & Ho).
    rewrite Ho in Hcol by tauto. by apply (Hrect c).
Qed.

Lemma scoring_keeps_rectangular_witness :
  rectangular (snd (buying_recommendation (frame_of bars_two))).
Proof.
  apply scoring_keeps_rectangular. apply frame_of_rectangular.
Defined.

(** ** Momentum: every outcome *)


(** X9. When previousClose is missing and currentPrice is a finite number
    other than zero, the previous close defaults to the current price and
    the momentum is exactly 0.0. *)
Theorem momentum_default_previous_close (info : gmap string pyval) (c : Qc) :
  info !! "currentPrice"%string = Some (PyNum (Num c)) ->
  info !! "previousClose"%string = None ->
  c <> 0%Qc ->
  momentum info = Ok (Num 0%Qc).
Proof.
  intros Hc Hp Hne. unfold momentum, dict_get. rewrite Hc, Hp.
  cbn [default from_option id as_num rbind]. unfold py_truediv.
  rewrite decide_False by congruence. cbn [rbind].
  rewrite percent_change_finite by done.
  replace ((c - c) / c * Qc_of_Z 100)%Qc with 0%Qc by (field; done).
  cbn [fround2]. do 2 f_equal. apply Qc_is_canon. reflexivity.
Qed.

Lemma momentum_default_previous_close_witness :
  momentum {[ "currentPrice"%string := PyNum (of_Z 110) ]} = Ok (Num 0%Qc).
Proof.
  apply (momentum_default_previous_close _ (Qc_of_Z 110)); [reflexivity|reflexivity|].
  discriminate.
Defined.

(** ** P/E rating: the labels determine the range *)

Section PeRating.

Local Open Scope Qc_scope.

Lemma pe_rating_value (q : Qc) :
  pe_rating (PyNum (Num q))
  = Ok (if bool_decide (q <= Qc_of_Z 0) then "N/A"
        else if bool_decide (q < Qc_of_Z 20) then "Excellent"
        else if bool_decide (q <= Qc_of_Z 35) then "Good"
        else "Poor")%string.
Proof.
  unfold pe_rating, as_num, rbind, of_Z. cbn [fle flt].
  by repeat case_bool_decide.
Qed.

End PeRating.

(** X10. For a finite trailing P/E the label determines the range: the
    rating is "N/A" exactly when the value is at most 0, "Excellent"
    exactly when it lies in (0, 20), "Good" exactly when it lies in
    [20, 35], and "Poor" exactly when it exceeds 35. *)
Theorem pe_rating_label_ranges (q : Qc) :
  (pe_rating (PyNum (Num q)) = Ok "N/A"%string <-> (q <= Qc_of_Z 0)%Qc) /\
  (pe_rating (PyNum (Num q)) = Ok "Excellent"%string <->
   (Qc_of_Z 0 < q)%Qc /\ (q < Qc_of_Z 20)%Qc) /\
  (pe_rating (PyNum (Num q)) = Ok "Good"%string <->
   (Qc_of_Z 20 <= q)%Qc /\ (q <= Qc_of_Z 35)%Qc) /\
  (pe_rating (PyNum (Num q)) = Ok "Poor"%string <-> (Qc_of_Z 35 < q)%Qc).
Proof.
  assert (H020 : (Qc_of_Z 0 < Qc_of_Z 20)%Qc) by (apply Qc_of_Z_lt; lia).
  assert (H2035 : (Qc_of_Z 20 < Qc_of_Z 35)%Qc) by (apply Qc_of_Z_lt; lia).
  rewrite pe_rating_value.
  repeat case_bool_decide;
    repeat match goal with
           | H : ~ (_ <= _)%Qc |- _ => apply Qclt_nge in H
           | H : ~ (_ < _)%Qc |- _ => apply Qcle_ngt in H
           end;
    (split; [|split; [|split]]); split;
    try (match goal with |- Ok _ = Ok _ -> _ => intros [= ] end); try done;
    intros; repeat match goal with H : _ /\ _ |- _ => destruct H end;
    try split; try done;
    exfalso;
    unfold Qcle, Qclt in *; cbn [this Qc_of_Z] in *; lra.
Qed.

(** ** The moving averages stay within the range of the closes *)

Section Averages.

Local Open Scope Qc_scope.
Implicit Types (qs w : list Qc) (i : nat).

Lemma alpha20_pos : 0 < Qc_of_Z 2 / Qc_of_Z 21.
Proof. by vm_compute. Qed.

Lemma alpha20_lt_1 : Qc_of_Z 2 / Qc_of_Z 21 < 1.
Proof. by vm_compute. Qed.

Lemma ema_lookup_0 qs (q0 : Qc) :
  qs !! 0%nat = Some q0 -> ewm_mean 20 (Num <$> qs) !! 0%nat = Some (Num q0).
Proof. destruct qs as [|q qs]; [done|]. by intros [= ->]. Qed.

Lemma ema_lookup_S qs i (c : Qc) :
  qs !! S i = Some c ->
  exists p : Qc,
    ewm_mean 20 (Num <$> qs) !! i = Some (Num p) /\
    ewm_mean 20 (Num <$> qs) !! S i
    = Some (Num (c * (Qc_of_Z 2 / Qc_of_Z 21) + p * (1 - Qc_of_Z 2 / Qc_of_Z 21))).
Proof.
  intros Hc. destruct qs as [|q qs]; [done|].
  rewrite fmap_cons. cbn [ewm_mean].
  change (ewm_init (Num q)) with (mkEwm (Num q) 1 1).
  change (ewm_out (mkEwm (Num q) 1 1)) with (Num q).
  rewrite ewm_alpha_20.
  change (qs !! i = Some c) in Hc.
  destruct (ewm_loop_recurrence (Qc_of_Z 2 / Qc_of_Z 21) qs q 0 i c Hc) as (p & Hp & Hn).
  exists p. split; [exact Hp|exact Hn].
Qed.

Lemma convex_le (a c p hi : Qc) :
  0 <= a -> a <= 1 -> c <= hi -> p <= hi -> c * a + p * (1 - a) <= hi.
Proof.
  intros Ha0 Ha1 Hc Hp.
  assert (H1a : 0 <= 1 - a) by (unfold Qcle in *; cbn [this Qcminus Qcplus Qcopp Q2Qc] in *;
                                rewrite ?Qred_correct in *; lra).
  apply Qcle_trans with (hi * a + hi * (1 - a)).
  - apply Qcplus_le_compat; by apply Qcmult_le_mono_nonneg_r.
  - replace (hi * a + hi * (1 - a)) with hi by ring. apply Qcle_refl.
Qed.

Lemma convex_ge (a c p lo : Qc) :
  0 <= a -> a <= 1 -> lo <= c -> lo <= p -> lo <= c * a + p * (1 - a).
Proof.
  intros Ha0 Ha1 Hc Hp.
  assert (H1a : 0 <= 1 - a) by (unfold Qcle in *; cbn [this Qcminus Qcplus Qcopp Q2Qc] in *;
                                rewrite ?Qred_correct in *; lra).
  apply Qcle_trans with (lo * a + lo * (1 - a)).
  - replace (lo * a + lo * (1 - a)) with lo by ring. apply Qcle_refl.
  - apply Qcplus_le_compat; by apply Qcmult_le_mono_nonneg_r.
Qed.

Lemma ema_within qs (lo hi : Qc) i (e : fval) :
  Forall (fun c => lo <= c /\ c <= hi) qs ->
  ewm_mean 20 (Num <$> qs) !! i = Some e ->
  exists v : Qc, e = Num v /\ lo <= v /\ v <= hi.
Proof.
  intros Hall. revert e. induction i as [|i IH]; intros e He.
  - assert (Hi : (0 < length qs)%nat).
    { apply lookup_lt_Some in He. by rewrite length_ewm_mean, length_fmap in He. }
    destruct (lookup_lt_is_Some_2 qs 0 Hi) as [q0 Hq0].
    rewrite (ema_lookup_0 _ _ Hq0) in He. injection He as <-.
    exists q0. split; [done|]. by apply (Forall_lookup_1 _ _ _ _ Hall Hq0).
  - assert (Hi : (S i < length qs)%nat).
    { apply lookup_lt_Some in He. by rewrite length_ewm_mean, length_fmap in He. }
    destruct (lookup_lt_is_Some_2 qs (S i) Hi) as [c Hc].
    destruct (ema_lookup_S _ _ _ Hc) as (p & Hp & Hn).
    rewrite Hn in He. injection He as <-.
    destruct (IH _ Hp) as (v & [= <-] & Hlo & Hhi).
    destruct (Forall_lookup_1 _ _ _ _ Hall Hc) as [Hclo Hchi].
    eexists. split; [reflexivity|].
    pose proof alpha20_pos as Ha0. pose proof alpha20_lt_1 as Ha1.
    apply Qclt_le_weak in Ha0, Ha1.
    split; [by apply convex_ge|by apply convex_le].
Qed.

Lemma Qc_of_nat_S (n : nat) : Qc_of_Z (Z.of_nat (S n)) = Qc_of_Z (Z.of_nat n) + 1.
Proof. by rewrite Nat2Z.inj_succ, <- Z.add_1_r, Z2Qc_inj_add, Z2Qc_inj_1. Qed.

Lemma qsum_le w (hi : Qc) :
  Forall (fun d => d <= hi) w -> qsum w <= Qc_of_Z (Z.of_nat (length w)) * hi.
Proof.
  induction 1 as [|d w Hd _ IH].
  - change (qsum []) with 0. change (Z.of_nat (length (@nil Qc))) with 0%Z.
    rewrite Z2Qc_inj_0, Qcmult_0_l. done.
  - change (qsum (d :: w)) with (d + qsum w).
    change (length (d :: w)) with (S (length w)). rewrite Qc_of_nat_S.
    replace ((Qc_of_Z (Z.of_nat (length w)) + 1) * hi)
      with (hi + Qc_of_Z (Z.of_nat (length w)) * hi) by ring.
    by apply Qcplus_le_compat.
Qed.

Lemma qsum_ge w (lo : Qc) :
  Forall (fun d => lo <= d) w -> Qc_of_Z (Z.of_nat (length w)) * lo <= qsum w.
Proof.
  induction 1 as [|d w Hd _ IH].
  - change (qsum []) with 0. change (Z.of_nat (length (@nil Qc))) with 0%Z.
    rewrite Z2Qc_inj_0, Qcmult_0_l. done.
  - change (qsum (d :: w)) with (d + qsum w).
    change (length (d :: w)) with (S (length w)). rewrite Qc_of_nat_S.
    replace ((Qc_of_Z (Z.of_nat (length w)) + 1) * lo)
      with (lo + Qc_of_Z (Z.of_nat (length w)) * lo) by ring.
    by apply Qcplus_le_compat.
Qed.

(** Dividing a sum by the (positive) number of its terms. *)
Lemma Qcdiv_le_l (s n m : Qc) : 0 < n -> s <= n * m -> s / n <= m.
Proof.
  intros Hn Hs. apply (Qcmult_le_mono_pos_r _ _ n Hn).
  unfold Qcdiv. rewrite <- Qcmult_assoc, Qcmult_inv_l, Qcmult_1_r.
  - by rewrite (Qcmult_comm m n).
  - intros ->. by apply (Qclt_not_eq 0 0).
Qed.

Lemma Qcdiv_le_r (s n m : Qc) : 0 < n -> n * m <= s -> m <= s / n.
Proof.
  intros Hn Hs. apply (Qcmult_le_mono_pos_r _ _ n Hn).
  unfold Qcdiv. rewrite <- Qcmult_assoc, Qcmult_inv_l, Qcmult_1_r.
  - by rewrite (Qcmult_comm m n).
  - intros ->. by apply (Qclt_not_eq 0 0).
Qed.


Lemma Qcdiv_lt_r (s n m : Qc) : 0 < n -> n * m < s -> m < s / n.
Proof.
  intros Hn Hs. apply (Qcmult_lt_mono_pos_r _ _ n Hn).
  unfold Qcdiv. rewrite <- Qcmult_assoc, Qcmult_inv_l, Qcmult_1_r.
  - by rewrite (Qcmult_comm m n).
  - intros ->. by apply (Qclt_not_eq 0 0).
Qed.

(** SMA-20 at a position that has 20 closes behind it. *)
Lemma sma_lookup qs i :
  (19 <= i)%nat -> (i < length qs)%nat ->
  rolling_mean 20 (Num <$> qs) !! i
  = Some (Num (qsum (drop (i - 19) (take (S i) qs)) / Qc_of_Z (Z.of_nat 20))) /\
  length (drop (i - 19) (take (S i) qs)) = 20%nat.
Proof.
  intros H19 Hi.
  assert (Hlen : length (drop (i - 19) (take (S i) qs)) = 20%nat)
    by (rewrite length_drop, length_take; lia).
  split; [|done].
  rewrite lookup_rolling_mean by (by rewrite length_fmap).
  rewrite window_nums. replace (S i - 20)%nat with (i - 19)%nat by lia.
  rewrite window_mean_nums by lia. by rewrite Hlen.
Qed.

Lemma sma_within qs (lo hi : Qc) i (x : fval) :
  Forall (fun c => lo <= c /\ c <= hi) qs ->
  rolling_mean 20 (Num <$> qs) !! i = Some x ->
  x = NaN \/ exists v : Qc, x = Num v /\ lo <= v /\ v <= hi.
Proof.
  intros Hall Hx.
  assert (Hi : (i < length qs)%nat).
  { apply lookup_lt_Some in Hx. by rewrite length_rolling_mean, length_fmap in Hx. }
  destruct (decide (19 <= i)%nat) as [H19|H19].
  - destruct (sma_lookup qs i H19 Hi) as [Hs Hlen].
    rewrite Hs in Hx. injection Hx as <-. right. eexists. split; [reflexivity|].
    assert (Hw : Forall (fun c => lo <= c /\ c <= hi) (drop (i - 19) (take (S i) qs)))
      by (by apply Forall_drop, Forall_take).
    assert (Hpos : 0 < Qc_of_Z (Z.of_nat 20)) by (apply Qc_of_nat_pos; lia).
    split.
    + apply Qcdiv_le_r; [done|]. rewrite <- Hlen at 1. apply qsum_ge.
      eapply Forall_impl; [exact Hw|]. by intros c [? ?].
    + apply Qcdiv_le_l; [done|]. rewrite <- Hlen at 1. apply qsum_le.
      eapply Forall_impl; [exact Hw|]. by intros c [? ?].
  - left. rewrite sma_undefined_early in Hx by (rewrite ?length_fmap; lia).
    by injection Hx as <-.
Qed.

End Averages.

(** X11. After the call, every value of the EMA20 column and every value
    of the SMA20 column that is not NaN lies between the lowest and the
    highest close of the series: if all closes lie in [lo, hi], so do both
    moving averages. *)
Theorem moving_averages_within_range
    (bars : list PriceBar) (lo hi : Qc) (i : nat) :
  Forall (fun c => (lo <= c)%Qc /\ (c <= hi)%Qc) (prices bars) ->
  (forall e : fval,
     column "EMA20" (snd (buying_recommendation (frame_of bars))) !! i = Some e ->
     exists v : Qc, e = Num v /\ (lo <= v)%Qc /\ (v <= hi)%Qc) /\
  (forall x : fval,
     column "SMA20" (snd (buying_recommendation (frame_of bars))) !! i = Some x ->
     x = NaN \/ exists v : Qc, x = Num v /\ (lo <= v)%Qc /\ (v <= hi)%Qc).
Proof.
  intros Hall. rewrite !column_after_call.
  destruct (with_indicators_columns (frame_of bars) (closes bars)) as (-> & -> & _).
  rewrite closes_prices. split.
  - intros e He. by apply (ema_within (prices bars) lo hi i).
  - intros x Hx. by apply (sma_within (prices bars) lo hi i).
Qed.

Lemma moving_averages_within_range_witness :
  exists v : Qc,
    column "EMA20" (snd (buying_recommendation (frame_of bars_two))) !! 1%nat
    = Some (Num v) /\
    (Qc_of_Z 100 <= v)%Qc /\ (v <= Qc_of_Z 110)%Qc.
Proof.
  destruct (column "EMA20" (snd (buying_recommendation (frame_of bars_two))) !! 1%nat)
    as [e|] eqn:He; [|vm_compute in He; discriminate].
  destruct (moving_averages_within_range bars_two (Qc_of_Z 100) (Qc_of_Z 110) 1)
    as [Hema _].
  - repeat constructor; vm_compute; discriminate.
  - destruct (Hema e He) as (v & -> & Hlo & Hhi). by exists v.
Defined.

(** ** Trends: flat, rising and falling series *)

Section Trends.

Local Open Scope Qc_scope.
Implicit Types (qs w : list Qc) (i j k : nat).

Lemma nondecreasing_le qs j k (a b : Qc) :
  nondecreasing qs -> (j <= k)%nat ->
  qs !! j = Some a -> qs !! k = Some b -> a <= b.
Proof.
  intros Hmono Hjk Ha. revert b. induction Hjk as [|k Hjk IH]; intros b Hb.
  - rewrite Ha in Hb. injection Hb as <-. apply Qcle_refl.
  - destruct (lookup_lt_is_Some_2 qs k) as [m Hm];
      [apply lookup_lt_Some in Hb; lia|].
    apply Qcle_trans with m; [by apply IH|by apply (Hmono k)].
Qed.



Lemma falling_lt qs j k (a b : Qc) :
  falling qs -> (j < k)%nat -> qs !! j = Some a -> qs !! k = Some b -> b < a.
Proof.
  intros Hf Hjk Ha. revert b. induction Hjk as [|k Hjk IH]; intros b Hb.
  - by apply (Hf j).
  - destruct (lookup_lt_is_Some_2 qs k) as [m Hm];
      [apply lookup_lt_Some in Hb; lia|].
    apply Qclt_trans with m; [by apply (Hf k)|by apply IH].
Qed.

(** RSI-14 on a series that never falls. *)
Lemma rsi14_never_falling qs i (a b : Qc) :
  nondecreasing qs -> (14 <= i)%nat ->
  qs !! (i - 14)%nat = Some a -> qs !! i = Some b ->
  rsi14 (Num <$> qs) !! i = Some (if decide (a < b) then of_Z 100 else NaN).
Proof.
  intros Hmono H14 Ha Hb.
  assert (Hi : (i < length qs)%nat) by (by apply lookup_lt_Some in Hb).
  rewrite (rsi14_lookup _ _ _ _ (avg_gain_lookup _ _ H14 Hi) (avg_loss_lookup _ _ H14 Hi)).
  set (g := qsum (drop (i - 14) (take i (gain_part <$> changes qs)))
            / Qc_of_Z (Z.of_nat 14)).
  set (l := qsum (drop (i - 14) (take i (loss_part <$> changes qs)))
            / Qc_of_Z (Z.of_nat 14)).
  pose proof (changes_nonneg _ Hmono) as Hch.
  assert (Hl : l = 0).
  { unfold l. rewrite qsum_zero; [apply Qcmult_0_l|].
    apply Forall_drop, Forall_take, Forall_fmap.
    eapply Forall_impl; [exact Hch|]. intros d Hd. by apply loss_part_rising. }
  assert (Hg : g = (b - a) / Qc_of_Z (Z.of_nat 14)).
  { unfold g.
    replace (gain_part <$> changes qs) with (changes qs).
    - pose proof (qsum_changes qs (i - 14) 14) as Hq.
      replace ((i - 14) + 14)%nat with i in Hq by lia. rewrite Hq by lia.
      by rewrite (nth_lookup_Some _ _ _ _ Ha), (nth_lookup_Some _ _ _ _ Hb).
    - rewrite <- (list_fmap_id (changes qs)) at 1.
      apply list_fmap_ext. intros k d Hd. symmetry. apply gain_part_rising.
      by apply (Forall_lookup_1 _ _ _ _ Hch Hd). }
  assert (Hab : a <= b) by (apply (nondecreasing_le qs (i - 14) i); [done|lia|done|done]).
  assert (H14pos : 0 < Qc_of_Z (Z.of_nat 14)) by (apply Qc_of_nat_pos; lia).
  f_equal. destruct (decide (a < b)) as [Hlt|Hnlt].
  - assert (Hgpos : 0 < g).
    { rewrite Hg. apply Qcdiv_pos; [|done].
      unfold Qclt in *. cbn [this Qcminus Qcplus Qcopp Q2Qc] in *.
      rewrite ?Qred_correct. lra. }
    apply (rsi_value_cases g l); [by apply Qclt_le_weak|rewrite Hl; done|done|done].
  - assert (Heq : a = b) by (apply Qcle_antisym; [done|by apply Qcle_ngt]).
    assert (Hg0 : g = 0).
    { rewrite Hg, Heq. replace (b - b) with 0 by ring. apply Qcmult_0_l. }
    apply (rsi_value_cases g l); rewrite ?Hg0, ?Hl; done.
Qed.

Lemma changes_negative qs :
  falling qs -> Forall (fun d => d < 0) (changes qs).
Proof.
  intros Hf. apply Forall_lookup. intros i d Hd.
  assert (Hi : (S i < length qs)%nat).
  { apply lookup_lt_Some in Hd. rewrite length_changes in Hd. lia. }
  destruct (lookup_lt_is_Some_2 qs i) as [a Ha]; [lia|].
  destruct (lookup_lt_is_Some_2 qs (S i)) as [b Hb]; [lia|].
  rewrite (lookup_changes qs i a b Ha Hb) in Hd. injection Hd as <-.
  pose proof (Hf i a b Ha Hb) as Hab.
  unfold Qclt in *. cbn [this Qcminus Qcplus Qcopp Q2Qc] in *.
  rewrite ?Qred_correct. lra.
Qed.

Lemma qsum_pos w : w <> [] -> Forall (fun d => 0 < d) w -> 0 < qsum w.
Proof.
  intros Hne Hall. destruct Hall as [|d w Hd Hall]; [done|].
  change (qsum (d :: w)) with (d + qsum w).
  apply Qcplus_pos_nonneg; [done|]. apply qsum_nonneg.
  eapply Forall_impl; [exact Hall|]. intros x. apply Qclt_le_weak.
Qed.

Lemma gain_part_falling (d : Qc) : d < 0 -> gain_part d = 0.
Proof.
  intros Hd. unfold gain_part. rewrite Qc_of_Z_0.
  by rewrite bool_decide_eq_true_2.
Qed.

Lemma loss_part_falling (d : Qc) : d < 0 -> 0 < loss_part d.
Proof.
  intros Hd. unfold loss_part. rewrite Qc_of_Z_0.
  rewrite bool_decide_eq_false_2.
  - unfold Qclt in *. cbn [this Qcopp Q2Qc] in *. rewrite ?Qred_correct in *. lra.
  - apply Qcle_ngt. by apply Qclt_le_weak.
Qed.

Lemma rsi_value_no_gain (l : Qc) : 0 < l -> rsi_value (Num 0) (Num l) = Num 0.
Proof.
  intros Hl.
  assert (Hl0 : l <> 0) by (intros ->; by apply (Qclt_not_eq 0 0)).
  unfold rsi_value, of_Z. cbn [fdiv]. rewrite decide_False by done.
  cbn [fadd].
  replace (Qc_of_Z 1 + 0 / l) with 1
    by (rewrite Qc_of_Z_1; unfold Qcdiv; by rewrite Qcmult_0_l, Qcplus_0_r).
  cbn [fdiv]. rewrite decide_False by done.
  cbn [fsub fneg fadd]. f_equal; field.
Qed.

(** RSI-14 on a series that falls on every bar. *)
Lemma rsi14_falling qs i :
  falling qs -> (14 <= i)%nat -> (i < length qs)%nat ->
  rsi14 (Num <$> qs) !! i = Some (Num 0).
Proof.
  intros Hf H14 Hi.
  rewrite (rsi14_lookup _ _ _ _ (avg_gain_lookup _ _ H14 Hi) (avg_loss_lookup _ _ H14 Hi)).
  pose proof (changes_negative _ Hf) as Hch.
  assert (H14pos : 0 < Qc_of_Z (Z.of_nat 14)) by (apply Qc_of_nat_pos; lia).
  assert (Hg : qsum (drop (i - 14) (take i (gain_part <$> changes qs)))
               / Qc_of_Z (Z.of_nat 14) = 0).
  { rewrite qsum_zero; [apply Qcmult_0_l|].
    apply Forall_drop, Forall_take, Forall_fmap.
    eapply Forall_impl; [exact Hch|]. intros d Hd. by apply gain_part_falling. }
  rewrite Hg. f_equal. apply rsi_value_no_gain.
  apply Qcdiv_pos; [|done]. apply qsum_pos.
  - intros Hnil. apply (f_equal length) in Hnil.
    rewrite length_drop, length_take, length_fmap, length_changes in Hnil.
    simpl in Hnil. lia.
  - apply Forall_drop, Forall_take, Forall_fmap.
    eapply Forall_impl; [exact Hch|]. intros d Hd. by apply loss_part_falling.
Qed.


Lemma convex_gt (a c p : Qc) : a < 1 -> c < p -> c < c * a + p * (1 - a).
Proof.
  intros Ha Hp.
  assert (H1a : 0 < 1 - a) by (unfold Qclt in *; cbn [this Qcminus Qcplus Qcopp Q2Qc] in *;
                               rewrite ?Qred_correct in *; lra).
  apply Qcle_lt_trans with (c * a + c * (1 - a)).
  - replace (c * a + c * (1 - a)) with c by ring. apply Qcle_refl.
  - apply Qcplus_lt_mono_l. by apply Qcmult_lt_mono_pos_r.
Qed.


Lemma ema_above_falling qs i (c : Qc) :
  falling qs -> qs !! i = Some c ->
  exists e : Qc,
    ewm_mean 20 (Num <$> qs) !! i = Some (Num e) /\
    c <= e /\ ((1 <= i)%nat -> c < e).
Proof.
  intros Hf. revert c. induction i as [|i IH]; intros c Hc.
  - exists c. rewrite (ema_lookup_0 _ _ Hc).
    split; [done|]. split; [apply Qcle_refl|lia].
  - destruct (ema_lookup_S _ _ _ Hc) as (p & Hp & Hn).
    destruct (lookup_lt_is_Some_2 qs i) as [m Hm];
      [apply lookup_lt_Some in Hc; lia|].
    destruct (IH m Hm) as (e & He & Hle & _).
    rewrite Hp in He. injection He as <-.
    assert (Hpc : c < p) by (eapply Qclt_le_trans; [by apply (Hf i)|exact Hle]).
    eexists. split; [exact Hn|].
    pose proof (convex_gt _ c p alpha20_lt_1 Hpc) as Hlt.
    split; [by apply Qclt_le_weak|done].
Qed.

(** SMA-20 of a rising series is below the latest close, of a falling one
    above it. *)
Lemma sma_window_split qs i (c0 : Qc) :
  (19 <= i)%nat -> (i < length qs)%nat -> qs !! (i - 19)%nat = Some c0 ->
  drop (i - 19) (take (S i) qs) = c0 :: drop (S (i - 19)) (take (S i) qs) /\
  length (drop (S (i - 19)) (take (S i) qs)) = 19%nat.
Proof.
  intros H19 Hi Hc0. split.
  - apply drop_S. rewrite lookup_take_lt by lia. exact Hc0.
  - rewrite length_drop, length_take. lia.
Qed.


Lemma falling_ge qs j k (a b : Qc) :
  falling qs -> (j <= k)%nat -> qs !! j = Some a -> qs !! k = Some b -> b <= a.
Proof.
  intros Hf Hjk Ha Hb. destruct (decide (j = k)) as [->|Hne].
  - rewrite Ha in Hb. injection Hb as <-. apply Qcle_refl.
  - apply Qclt_le_weak. apply (falling_lt qs j k); [done|lia|done|done].
Qed.

Lemma sma_above_falling qs i (c : Qc) :
  falling qs -> (19 <= i)%nat -> qs !! i = Some c ->
  exists m : Qc, rolling_mean 20 (Num <$> qs) !! i = Some (Num m) /\ c < m.
Proof.
  intros Hf H19 Hc.
  assert (Hi : (i < length qs)%nat) by (by apply lookup_lt_Some in Hc).
  destruct (sma_lookup qs i H19 Hi) as [Hs _].
  eexists. split; [exact Hs|].
  destruct (lookup_lt_is_Some_2 qs (i - 19)) as [c0 Hc0]; [lia|].
  destruct (sma_window_split qs i c0 H19 Hi Hc0) as [-> Hlen].
  apply Qcdiv_lt_r; [apply Qc_of_nat_pos; lia|].
  change (qsum (c0 :: drop (S (i - 19)) (take (S i) qs)))
    with (c0 + qsum (drop (S (i - 19)) (take (S i) qs))).
  assert (Hc0c : c < c0) by (apply (falling_lt qs (i - 19) i); [done|lia|done|done]).
  set (w := drop (S (i - 19)) (take (S i) qs)) in *.
  assert (Hrest : Qc_of_Z (Z.of_nat 19) * c <= qsum w).
  { rewrite <- Hlen. apply qsum_ge, Forall_drop, Forall_lookup.
    intros k d Hd. apply lookup_take_Some in Hd as [Hd Hk].
    apply (falling_ge qs k i); [done|lia|done|done]. }
  replace (Qc_of_Z (Z.of_nat 20) * c) with (c + Qc_of_Z (Z.of_nat 19) * c)
    by (rewrite (Qc_of_nat_S 19); ring).
  apply Qclt_le_trans with (c0 + Qc_of_Z (Z.of_nat 19) * c).
  - by apply Qcplus_lt_mono_r.
  - by apply Qcplus_le_mono_l.
Qed.

End Trends.

Section TrendScores.

Local Open Scope nat_scope.
Implicit Types (bars : list PriceBar).

(** The score of a series from the three comparisons at its latest bar. *)
Lemma score_by_parts bars (q : Qc) (sp ep rp : bool) :
  prices bars !! (length bars - 1) = Some q ->
  (forall sma, rolling_mean 20 (Num <$> prices bars) !! (length bars - 1) = Some sma ->
               fgt (Num q) sma = sp) ->
  (forall ema, ewm_mean 20 (Num <$> prices bars) !! (length bars - 1) = Some ema ->
               fgt (Num q) ema = ep) ->
  (forall rsi, rsi14 (Num <$> prices bars) !! (length bars - 1) = Some rsi ->
               flt rsi (of_Z 70) = rp) ->
  fst (buying_recommendation (frame_of bars))
  = ((if sp then 40 else 0) + (if ep then 40 else 0) + (if rp then 20 else 0))%Z.
Proof.
  intros Hq Hsma Hema Hrsi.
  assert (Hne : bars <> []) by (intros ->; done).
  destruct (score_of_series bars Hne) as (c & sma & ema & rsi & Hc & Hs & He & Hr & Hscore).
  rewrite closes_prices in Hc, Hs, He, Hr.
  rewrite list_lookup_fmap, Hq in Hc. injection Hc as <-.
  rewrite buying_recommendation_series, Hscore. cbn [fst].
  unfold sma_points, ema_points, rsi_points.
  rewrite (Hsma _ Hs), (Hema _ He), (Hrsi _ Hr).
  by destruct sp, ep, rp.
Qed.

Lemma last_price bars : bars <> [] -> exists q : Qc, prices bars !! (length bars - 1) = Some q.
Proof.
  intros Hne. apply lookup_lt_is_Some_2. rewrite length_prices.
  destruct bars; [done|simpl; lia].
Qed.

Lemma prices_nonempty bars : bars <> [] -> 1 <= length bars.
Proof. destruct bars; [done|simpl; lia]. Qed.


Lemma falling_linear (first : Z) (n : nat) :
  falling (prices (series_of_closes (falling_closes first n))).
Proof.
  rewrite prices_series. unfold falling_closes. intros i a b Ha Hb.
  rewrite !list_lookup_fmap in Ha, Hb.
  destruct (decide (S i < n)) as [Hi|Hi].
  - rewrite lookup_seq_lt in Ha, Hb by lia.
    cbn [fmap option_fmap option_map] in Ha, Hb.
    injection Ha as <-. injection Hb as <-. apply Qc_of_Z_lt. lia.
  - rewrite (lookup_seq_ge _ _ (S i)) in Hb by lia. done.
Qed.

End TrendScores.

(** X12. A series that has bars and the same close on every bar scores 0:
    the close is above neither average, and RSI-14 is NaN. *)
Theorem flat_series_scores_0 (bars : list PriceBar) (C : Qc) :
  bars <> [] ->
  prices bars = replicate (length bars) C ->
  fst (buying_recommendation (frame_of bars)) = 0.
Proof.
  intros Hne Hflat.
  pose proof (prices_nonempty bars Hne) as Hlen.
  assert (Hlast : prices bars !! (length bars - 1)%nat = Some C)
    by (rewrite Hflat; apply lookup_replicate_2; lia).
  assert (Hall : Forall (fun c => (C <= c)%Qc /\ (c <= C)%Qc) (prices bars)).
  { rewrite Hflat. apply Forall_replicate. split; apply Qcle_refl. }
  apply (score_by_parts bars C false false false Hlast).
  - intros sma Hs.
    destruct (sma_within _ C C _ _ Hall Hs) as [->|(v & -> & Hlo & Hhi)]; [done|].
    unfold fgt. apply flt_Num_false. done.
  - intros ema He.
    destruct (ema_within _ C C _ _ Hall He) as (v & -> & Hlo & Hhi).
    unfold fgt. apply flt_Num_false. done.
  - intros rsi Hr.
    destruct (decide (14 <= length bars - 1)%nat) as [H14|H14].
    + assert (Ha : prices bars !! (length bars - 1 - 14)%nat = Some C)
        by (rewrite Hflat; apply lookup_replicate_2; lia).
      rewrite (rsi14_never_falling _ _ C C) in Hr; try done.
      * rewrite decide_False in Hr by (by apply Qcle_ngt, Qcle_refl).
        by injection Hr as <-.
      * intros i a b Hia Hib. rewrite Hflat in Hia, Hib.
        apply lookup_replicate_1 in Hia as [-> _].
        apply lookup_replicate_1 in Hib as [-> _]. apply Qcle_refl.
    + rewrite rsi14_lookup_early in Hr by (rewrite ?length_prices; lia).
      by injection Hr as <-.
Qed.

Lemma flat_series_scores_0_witness :
  fst (buying_recommendation (frame_of bars_flat15)) = 0.
Proof.
  apply (flat_series_scores_0 bars_flat15 (Qc_of_Z 100)); [discriminate|reflexivity].
Defined.



(** X14. A series whose close falls on every bar scores exactly 20 when it
    has at least 15 bars (the close is below both averages and RSI-14 is
    exactly 0) and exactly 0 when it has 1 to 14 bars (RSI-14 is NaN). *)
Theorem falling_series_score (bars : list PriceBar) :
  falling (prices bars) ->
  ((15 <= length bars)%nat -> fst (buying_recommendation (frame_of bars)) = 20) /\
  ((1 <= length bars)%nat -> (length bars < 15)%nat ->
   fst (buying_recommendation (frame_of bars)) = 0).
Proof.
  intros Hf.
  assert (Hsma : forall q, prices bars !! (length bars - 1)%nat = Some q ->
            forall sma, rolling_mean 20 (Num <$> prices bars) !! (length bars - 1)%nat = Some sma ->
                        fgt (Num q) sma = false).
  { intros q Hq sma Hs.
    destruct (decide (19 <= length bars - 1)%nat) as [H19|H19].
    - destruct (sma_above_falling _ _ _ Hf H19 Hq) as (m & Hm & Hlt).
      rewrite Hm in Hs. injection Hs as <-.
      apply flt_Num_false. by apply Qclt_le_weak.
    - apply lookup_lt_Some in Hq.
      rewrite sma_undefined_early in Hs by (rewrite ?length_fmap; lia).
      by injection Hs as <-. }
  assert (Hema : forall q, prices bars !! (length bars - 1)%nat = Some q ->
            forall ema, ewm_mean 20 (Num <$> prices bars) !! (length bars - 1)%nat = Some ema ->
                        fgt (Num q) ema = false).
  { intros q Hq ema He.
    destruct (ema_above_falling _ _ _ Hf Hq) as (e & He' & Hle & _).
    rewrite He' in He. injection He as <-. by apply flt_Num_false. }
  split.
  - intros H15.
    destruct (last_price bars) as [q Hq]; [intros ->; simpl in H15; lia|].
    apply (score_by_parts bars q false false true Hq); [by apply Hsma|by apply Hema|].
    intros rsi Hrs.
    rewrite rsi14_falling in Hrs by (rewrite ?length_prices; (done || lia)).
    by injection Hrs as <-.
  - intros H1 H15.
    destruct (last_price bars) as [q Hq]; [intros ->; simpl in H1; lia|].
    apply (score_by_parts bars q false false false Hq); [by apply Hsma|by apply Hema|].
    intros rsi Hrs.
    rewrite rsi14_lookup_early in Hrs by (rewrite ?length_prices; lia).
    by injection Hrs as <-.
Qed.

Lemma falling_series_score_witness :
  fst (buying_recommendation (frame_of bars_falling16)) = 20.
Proof.
  apply (falling_series_score bars_falling16); [apply falling_linear|vm_compute; lia].
Defined.

(** * Presentation-adjacent code *)

(** ** Market-cap display *)

Section MarketCap.

Local Open Scope N_scope.
Implicit Types (t : text) (d : Decimal.uint) (n f : N).









End MarketCap.


(** 150000000 is displayed as "₹15.00 Cr". *)
Example market_cap_example :
  format_market_cap (PyNum (of_Z 150000000)) = rupee :: lit "15.00 Cr".
Proof. vm_compute. reflexivity. Qed.

(** ** The symbol universe *)

Section Symbols.

Implicit Types (col : list pyval) (stocks : list string).

Lemma traverse_add_ns_strings (stems : list string) :
  traverse add_ns (PyStr <$> stems) = Ok ((fun s => String.append s ".NS") <$> stems).
Proof.
  induction stems as [|s stems IH]; [done|].
  rewrite !fmap_cons. cbn [traverse add_ns rbind]. by rewrite IH.
Qed.

Lemma traverse_add_ns_Ok col stocks :
  traverse add_ns col = Ok stocks ->
  exists stems : list string,
    col = PyStr <$> stems /\ stocks = (fun s => String.append s ".NS") <$> stems.
Proof.
  revert stocks. induction col as [|v col IH]; intros stocks H.
  - injection H as <-. by exists [].
  - cbn [traverse] in H. destruct v as [|x|s]; try done. cbn [add_ns rbind] in H.
    destruct (traverse add_ns col) as [ys|e]; [|done]. cbn [rbind] in H.
    injection H as <-. destruct (IH ys eq_refl) as (stems & -> & ->).
    by exists (s :: stems).
Qed.

Lemma traverse_add_ns_Raise col (v : pyval) :
  v ∈ col -> (forall s : string, v <> PyStr s) ->
  exists e : exn, traverse add_ns col = Raise e.
Proof.
  intros Hin Hv. destruct (traverse add_ns col) as [stocks|e] eqn:H; [|by eauto].
  destruct (traverse_add_ns_Ok _ _ H) as (stems & -> & _).
  apply list_elem_of_fmap in Hin as (s & -> & _). by destruct (Hv s).
Qed.

Lemma fallback_ends_with_ns : Forall ends_with_ns fallback_stocks.
Proof.
  repeat constructor; [by exists "RELIANCE"%string|by exists "TCS"%string|by exists "INFY"%string].
Qed.

End Symbols.

(** X16. Every ticker the loader returns ends in ".NS".  When the file is
    read and its SYMBOL column holds only strings, the tickers are those
    strings, in order, each with ".NS" appended; when reading fails, the
    column is missing, or any one cell is not a string, the whole result is
    the built-in list of three. *)
Theorem nse_stocks_loader (csv : result (gmap string (list pyval))) :
  Forall ends_with_ns (get_all_nse_stocks csv) /\
  (forall (df : gmap string (list pyval)) (stems : list string),
     csv = Ok df -> df !! "SYMBOL"%string = Some (PyStr <$> stems) ->
     get_all_nse_stocks csv = (fun s => String.append s ".NS") <$> stems) /\
  ((forall e : exn, csv = Raise e -> get_all_nse_stocks csv = fallback_stocks) /\
   (forall df : gmap string (list pyval),
      csv = Ok df -> df !! "SYMBOL"%string = None ->
      get_all_nse_stocks csv = fallback_stocks) /\
   (forall (df : gmap string (list pyval)) (col : list pyval) (v : pyval),
      csv = Ok df -> df !! "SYMBOL"%string = Some col ->
      v ∈ col -> (forall s : string, v <> PyStr s) ->
      get_all_nse_stocks csv = fallback_stocks)).
Proof.
  split; [|split; [|split; [|split]]].
  - unfold get_all_nse_stocks.
    destruct (nse_stocks_body csv) as [stocks|e] eqn:H; [|apply fallback_ends_with_ns].
    unfold nse_stocks_body in H. destruct csv as [df|e]; [|done]. cbn [rbind] in H.
    destruct (df !! "SYMBOL"%string) as [col|]; [|done]. cbn [rbind] in H.
    destruct (traverse_add_ns_Ok _ _ H) as (stems & _ & ->).
    apply Forall_fmap, Forall_forall. intros s _. by exists s.
  - intros df stems -> Hcol. unfold get_all_nse_stocks, nse_stocks_body.
    cbn [rbind]. rewrite Hcol. cbn [rbind]. by rewrite traverse_add_ns_strings.
  - by intros e ->.
  - intros df -> Hcol. unfold get_all_nse_stocks, nse_stocks_body.
    cbn [rbind]. by rewrite Hcol.
  - intros df col v -> Hcol Hin Hv. unfold get_all_nse_stocks, nse_stocks_body.
    cbn [rbind]. rewrite Hcol. cbn [rbind].
    by destruct (traverse_add_ns_Raise col v Hin Hv) as [e ->].
Qed.

(** ** Suggestions *)

Section Suggestions.

Implicit Types (pat s : string) (stocks : list string).

Lemma append_cons (a : ascii) s post :
  String.append (String a s) post = String a (String.append s post).
Proof. reflexivity. Qed.

Lemma append_nil s : String.append "" s = s.
Proof. reflexivity. Qed.

Lemma starts_with_spec pat s :
  starts_with pat s = true <-> exists post : string, s = String.append pat post.
Proof.
  revert s. induction pat as [|a pat IH]; intros s.
  - split; [intros _; by exists s|done].
  - destruct s as [|b r]; cbn [starts_with].
    + split; [done|]. intros [post H]. by rewrite append_cons in H.
    + destruct (decide (a = b)) as [->|Hne].
      * rewrite IH. split; intros [post H]; exists post.
        -- rewrite append_cons. by rewrite H.
        -- rewrite append_cons in H. by injection H.
      * split; [done|]. intros [post H]. rewrite append_cons in H.
        injection H as Hab _. by destruct Hne.
Qed.

Lemma contains_spec pat s : contains pat s = true <-> occurs_in pat s.
Proof.
  unfold occurs_in. induction s as [|b r IH].
  - cbn [contains]. destruct (starts_with pat "") eqn:Hs.
    + apply starts_with_spec in Hs as [post Hs]. split; [|done].
      intros _. by exists ""%string, post.
    + split; [done|]. intros (pre & post & H).
      destruct pre; [|by rewrite append_cons in H]. rewrite append_nil in H.
      assert (Ht : starts_with pat "" = true) by (apply starts_with_spec; by exists post).
      congruence.
  - cbn [contains]. destruct (starts_with pat (String b r)) eqn:Hs.
    + apply starts_with_spec in Hs as [post Hs]. split; [|done].
      intros _. by exists ""%string, post.
    + rewrite IH. split.
      * intros (pre & post & ->). by exists (String b pre), post.
      * intros (pre & post & H). destruct pre as [|c pre].
        -- rewrite append_nil in H.
           assert (Ht : starts_with pat (String b r) = true)
             by (apply starts_with_spec; by exists post).
           congruence.
        -- rewrite append_cons in H. injection H as _ ->. by exists pre, post.
Qed.

End Suggestions.

(** X17. The suggestions are at most 20 tickers of the list, in the order
    of the list, each containing the search text; when fewer than 20 are
    offered, every ticker of the list that contains the search text is among
    them. *)
Theorem suggestions_spec (search : string) (stocks : list string) :
  (length (suggestions search stocks) <= 20)%nat /\
  suggestions search stocks `sublist_of` stocks /\
  (forall s : string,
     s ∈ suggestions search stocks -> s ∈ stocks /\ occurs_in search s) /\
  ((length (suggestions search stocks) < 20)%nat ->
   forall s : string, s ∈ stocks -> occurs_in search s -> s ∈ suggestions search stocks).
Proof.
  unfold suggestions. split; [|split; [|split]].
  - rewrite length_take. lia.
  - etrans; [apply sublist_take|apply sublist_filter].
  - intros s Hs. apply (subseteq_take 20) in Hs.
    apply list_elem_of_filter in Hs as [Hc Hin]. split; [done|].
    by apply contains_spec.
  - intros Hlen s Hin Hocc.
    rewrite take_ge.
    + apply list_elem_of_filter. split; [|done]. by apply contains_spec.
    + rewrite length_take in Hlen. lia.
Qed.

Lemma suggestions_spec_witness :
  "TCS.NS"%string ∈ suggestions "TCS" fallback_stocks.
Proof.
  destruct (suggestions_spec "TCS" fallback_stocks) as (_ & _ & _ & Hall).
  apply Hall.
  - vm_compute. lia.
  - set_solver.
  - by exists ""%string, ".NS"%string.
Defined.

(** ** The report artifact *)

Section Story.

Implicit Types (l : text) (lines : list text) (data : list (text * list text)).








End Story.


Section FileName.

Implicit Types (symbol : text) (now : datetime).

Lemma pdf_path_unfold symbol now :
  head symbol <> Some 47%N ->
  pdf_path symbol now
  = lit "Stock_Reports/" ++ symbol
    ++ lit " - Jayesh Thakor Analysis - " ++ strftime_stamp now ++ lit ".pdf".
Proof.
  intros Hhead. unfold pdf_path, path_join, pdf_filename.
  rewrite decide_False.
  - rewrite decide_False by done. rewrite decide_False by done.
    change (lit "Stock_Reports/") with (lit "Stock_Reports" ++ [47%N]).
    by rewrite <- app_assoc.
  - destruct symbol as [|c r]; [done|]. exact Hhead.
Qed.

Lemma strftime_stamp_digits now :
  strftime_stamp now
  = [(48 + day now / 10)%N; (48 + day now mod 10)%N; 45%N;
     (48 + month now / 10)%N; (48 + month now mod 10)%N; 45%N;
     (48 + year now / 1000)%N; (48 + year now / 100 mod 10)%N;
     (48 + year now / 10 mod 10)%N; (48 + year now mod 10)%N; 32%N;
     (48 + hour now / 10)%N; (48 + hour now mod 10)%N; 45%N;
     (48 + minute now / 10)%N; (48 + minute now mod 10)%N; 45%N;
     (48 + second now / 10)%N; (48 + second now mod 10)%N].
Proof. reflexivity. Qed.

Lemma two_digits_inj (a b : N) :
  (48 + a / 10 = 48 + b / 10)%N -> (48 + a mod 10 = 48 + b mod 10)%N -> a = b.
Proof.
  intros H1 H2. rewrite (N.div_mod' a 10), (N.div_mod' b 10). lia.
Qed.

Lemma year_digits_inj (a b : N) :
  (48 + a / 1000 = 48 + b / 1000)%N -> (48 + a / 100 mod 10 = 48 + b / 100 mod 10)%N ->
  (48 + a / 10 mod 10 = 48 + b / 10 mod 10)%N -> (48 + a mod 10 = 48 + b mod 10)%N ->
  a = b.
Proof.
  intros H1 H2 H3 H4.
  assert (E100 : forall x : N, (x / 100 = x / 10 / 10)%N)
    by (intros x; by rewrite N.Div0.div_div).
  assert (E1000 : forall x : N, (x / 1000 = x / 10 / 10 / 10)%N)
    by (intros x; by rewrite !N.Div0.div_div).
  rewrite !E1000 in H1. rewrite !E100 in H2.
  pose proof (N.div_mod' a 10). pose proof (N.div_mod' (a / 10) 10).
  pose proof (N.div_mod' (a / 10 / 10) 10).
  pose proof (N.div_mod' b 10). pose proof (N.div_mod' (b / 10) 10).
  pose proof (N.div_mod' (b / 10 / 10) 10).
  lia.
Qed.

End FileName.

(** X19. Two requests get the same path only if they are for the same
    symbol at the same date and time to the second; and the path of a
    request is "Stock_Reports/", the symbol, the author label, the
    19-character stamp and ".pdf". *)
Theorem pdf_path_same_only_if_same_request
    (symbol1 symbol2 : text) (now1 now2 : datetime) :
  head symbol1 <> Some 47%N -> head symbol2 <> Some 47%N ->
  valid_time now1 -> valid_time now2 ->
  length (strftime_stamp now1) = 19%nat /\
  pdf_path symbol1 now1
  = lit "Stock_Reports/" ++ symbol1 ++ lit " - Jayesh Thakor Analysis - "
    ++ strftime_stamp now1 ++ lit ".pdf" /\
  (pdf_path symbol1 now1 = pdf_path symbol2 now2 ->
   symbol1 = symbol2 /\
   year now1 = year now2 /\ month now1 = month now2 /\ day now1 = day now2 /\
   hour now1 = hour now2 /\ minute now1 = minute now2 /\ second now1 = second now2).
Proof.
  intros H1 H2 _ _. split; [reflexivity|]. split.
  { by rewrite (pdf_path_unfold _ _ H1). }
  rewrite (pdf_path_unfold _ _ H1), (pdf_path_unfold _ _ H2). intros Heq.
  apply app_inv_head in Heq.
  apply app_inj_2 in Heq as [Hsym Hrest]; [|reflexivity].
  split; [exact Hsym|].
  apply app_inv_head in Hrest. apply app_inv_tail in Hrest.
  rewrite !strftime_stamp_digits in Hrest.
  injection Hrest as Hd1 Hd0 Hm1 Hm0 Hy3 Hy2 Hy1 Hy0 Hh1 Hh0 Hn1 Hn0 Hs1 Hs0.
  repeat split;
    [by apply year_digits_inj|by apply two_digits_inj|by apply two_digits_inj
    |by apply two_digits_inj|by apply two_digits_inj|by apply two_digits_inj].
Qed.

Lemma pdf_path_same_only_if_same_request_witness :
  pdf_path (lit "TCS.NS") sample_time
  = lit "Stock_Reports/TCS.NS - Jayesh Thakor Analysis - 04-11-2026 09-05-00.pdf".
Proof.
  destruct (pdf_path_same_only_if_same_request
              (lit "TCS.NS") (lit "TCS.NS") sample_time sample_time)
    as (_ & Hpath & _).
  - vm_compute. discriminate.
  - vm_compute. discriminate.
  - unfold valid_time, sample_time. cbn. lia.
  - unfold valid_time, sample_time. cbn. lia.
  - rewrite Hpath. reflexivity.
Defined.

(** ** Listing details *)



(** ** The market-cap line, on screen and in the artifact *)

Section ArtifactText.

Implicit Types (l : text).




End ArtifactText.


